(** * Coin-flip simulator: statistics engine of [app.py]

    Shallow embedding of the functions of [app.py] that carry logic
    ([flip_coin], [calculate_statistics], [perform_binomial_test]) and of
    the NumPy / SciPy calls they make.

    Conventions.
    - A Python [int] is a [Z]; a Python list of [str] is a [list string].
    - A Python [float] is idealised as an exact rational ([Q]); the only
      non-finite float the modelled calls can produce is [nan], kept as a
      constructor of [pyfloat].
    - A call either returns or raises: [result]. *)

From Stdlib Require Import ZArith QArith Qround Qminmax List String Bool Lia Lqa
  Permutation.
Import ListNotations.

Local Open Scope Z_scope.
Local Open Scope Q_scope.

(* ------------------------------------------------------------------ *)
(** ** Python values *)

Inductive exn : Type :=
| ValueError
| IndexError
| AttributeError.

Inductive result (A : Type) : Type :=
| Ok (a : A)
| Raise (e : exn).

Arguments Ok {A} a.
Arguments Raise {A} e.

Inductive pyfloat : Type :=
| Fin (q : Q)
| NaN.

(** Float arithmetic: exact on finite values, [nan] is absorbing. *)
Definition fmul (a b : pyfloat) : pyfloat :=
  match a, b with
  | Fin x, Fin y => Fin (x * y)
  | _, _ => NaN
  end.

Definition fsub (a b : pyfloat) : pyfloat :=
  match a, b with
  | Fin x, Fin y => Fin (x - y)
  | _, _ => NaN
  end.

(** [a < b] and [a > b]: every comparison with [nan] is [False]. *)
Definition flt (a b : pyfloat) : bool :=
  match a, b with
  | Fin x, Fin y => negb (Qle_bool y x)
  | _, _ => false
  end.

Definition fgt (a b : pyfloat) : bool := flt b a.

(** Python's builtin [min(a, b)]: the first argument is kept unless the
    second is strictly smaller. *)
Definition pymin (a b : pyfloat) : pyfloat := if flt b a then b else a.

(* ------------------------------------------------------------------ *)
(** ** Outcome labels *)

Definition Cara : string := "Cara".
Definition Cruz : string := "Cruz".

Definition is_outcome (s : string) : Prop := s = Cara \/ s = Cruz.

(** Proves [Forall is_outcome l] for a literal list [l]. *)
Ltac all_outcomes :=
  repeat (apply Forall_cons; [unfold is_outcome; auto|]); apply Forall_nil.

(* ------------------------------------------------------------------ *)
(** ** [calculate_statistics] *)

Record stats_dict : Type := mk_stats {
  total : Z;
  caras : Z;
  cruces : Z;
  porcentaje_caras : Q;
  porcentaje_cruces : Q
}.

(** [list.count(x)]: number of elements equal to [x]. *)
Definition py_count (results : list string) (x : string) : Z :=
  Z.of_nat (count_occ string_dec results x).

Definition py_len (results : list string) : Z := Z.of_nat (List.length results).

(** [(c / total * 100) if total > 0 else 0] *)
Definition percentage (c t : Z) : Q :=
  if (0 <? t)%Z then inject_Z c / inject_Z t * 100 else 0.

Definition calculate_statistics (results : list string) : stats_dict :=
  let total := py_len results in
  let caras := py_count results Cara in
  let cruces := py_count results Cruz in
  {| total := total;
     caras := caras;
     cruces := cruces;
     porcentaje_caras := percentage caras total;
     porcentaje_cruces := percentage cruces total |}.

(* ------------------------------------------------------------------ *)
(** ** NumPy: [numpy.random.choice(a, size, p)]

    Model of the legacy global generator, with the random source made
    explicit: a generator state is the stream of uniform samples of [[0,1)]
    it will deliver next.  [choice] validates [p], then draws [size] uniform
    samples [u] and returns [a[idx]] where [idx] is the position of [u] in
    the normalised cumulative sums of [p] ([searchsorted], [side='right']). *)

Definition rng : Type := nat -> Q.

Definition rng_take (n : nat) (g : rng) : list Q := map g (seq 0 n).
Definition rng_drop (n : nat) (g : rng) : rng := fun i => g (n + i)%nat.

Definition qsum (l : list Q) : Q := fold_right Qplus 0 l.

Fixpoint cumsum_from (acc : Q) (l : list Q) : list Q :=
  match l with
  | [] => []
  | x :: r => (acc + x) :: cumsum_from (acc + x) r
  end.

Definition cumsum (l : list Q) : list Q := cumsum_from 0 l.

(** [cdf.searchsorted(u, side='right')]: number of entries [<= u]
    (the array is sorted). *)
Definition searchsorted_right (cdf : list Q) (u : Q) : nat :=
  List.length (filter (fun c => Qle_bool c u) cdf).

(** Fancy indexing [a[idx]]. *)
Fixpoint take_indices (a : list string) (idx : list nat) : result (list string) :=
  match idx with
  | [] => Ok []
  | i :: r =>
      match nth_error a i with
      | None => Raise IndexError
      | Some x =>
          match take_indices a r with
          | Ok l => Ok (x :: l)
          | Raise e => Raise e
          end
      end
  end.

Definition random_choice (a : list string) (size : Z) (p : list Q) (g : rng)
  : result (list string) * rng :=
  if negb (List.length p =? List.length a)%nat then (Raise ValueError, g)
  else if existsb (fun x => negb (Qle_bool 0 x)) p then (Raise ValueError, g)
  else if negb (Qeq_bool (qsum p) 1) then (Raise ValueError, g)
  else if (size <? 0)%Z then (Raise ValueError, g)
  else
    let n := Z.to_nat size in
    let cdf := cumsum p in
    let cdf := map (fun c => c / last cdf 1) cdf in
    let idx := map (searchsorted_right cdf) (rng_take n g) in
    (take_indices a idx, rng_drop n g).

(* ------------------------------------------------------------------ *)
(** ** [flip_coin] *)

Definition flip_coin (n_flips : Z) (probability : Q) (g : rng)
  : result (list string) * rng :=
  random_choice [Cara; Cruz] n_flips [probability; 1 - probability] g.

(** A uniform source delivers samples of [[0, 1)]. *)
Definition uniform_source (g : rng) : Prop := forall i, 0 <= g i /\ g i < 1.

(** One draw of the coin from the uniform sample [u]. *)
Definition outcome_of (p u : Q) : string := if Qle_bool p u then Cruz else Cara.

(** A sample random source, used to run the model: 1/2, 1/3, 1/4, ... *)
Definition sample_rng : rng := fun i => 1 # Pos.of_succ_nat (S i).

(* ------------------------------------------------------------------ *)
(** ** SciPy: the binomial distribution [scipy.stats.binom]

    Exact model of the distribution functions used by the source:
    [pmf], [cdf], [sf], [ppf] and [interval]. *)

(** Binomial coefficient [C(n, k)], by the product formula
    [C(n, k+1) = C(n, k) (n - k) / (k + 1)]. *)
Fixpoint choose (n k : nat) : Z :=
  match k with
  | O => 1
  | S k' => choose n k' * Z.of_nat (n - k') / Z.of_nat k
  end%Z.

(** Pascal's triangle, the same numbers by addition. *)
Fixpoint pascal (n k : nat) : Z :=
  match k, n with
  | O, _ => 1
  | S _, O => 0
  | S k', S n' => pascal n' k' + pascal n' k
  end%Z.

Fixpoint qpow (x : Q) (e : nat) : Q :=
  match e with
  | O => 1
  | S e' => x * qpow x e'
  end.

(** [pmf(i; n, p) = C(n, i) p^i (1-p)^(n-i)] *)
Definition pmf (n : nat) (p : Q) (i : nat) : Q :=
  inject_Z (choose n i) * qpow p i * qpow (1 - p) (n - i).

(** [pmf(0) + ... + pmf(m)] *)
Fixpoint cdf_upto (n : nat) (p : Q) (m : nat) : Q :=
  match m with
  | O => pmf n p 0
  | S m' => cdf_upto n p m' + pmf n p m
  end.

(** Distribution function on an integer argument. *)
Definition cdf (n : nat) (p : Q) (k : Z) : Q :=
  if (k <? 0)%Z then 0 else cdf_upto n p (Z.to_nat k).

(** Survival function [sf(k) = 1 - cdf(k)]. *)
Definition sf (n : nat) (p : Q) (k : Z) : Q := 1 - cdf n p k.

(** Percent point function: the smallest [k] of the support with
    [cdf(k) >= q]. *)
Fixpoint ppf_search (n : nat) (p q : Q) (fuel k : nat) : nat :=
  match fuel with
  | O => k
  | S f => if Qle_bool q (cdf_upto n p k) then k else ppf_search n p q f (S k)
  end.

Definition ppf (n : nat) (p q : Q) : nat := ppf_search n p q n 0.

(** Parameter check of the distribution: [n >= 0] and [0 <= p <= 1]. *)
Definition argcheck (n : Z) (p : Q) : bool :=
  (0 <=? n)%Z && Qle_bool 0 p && Qle_bool p 1.

(** [binom.cdf(k, n, p)]: [nan] on invalid parameters. *)
Definition binom_cdf (k n : Z) (p : Q) : pyfloat :=
  if argcheck n p then Fin (cdf (Z.to_nat n) p k) else NaN.

(** [binom.interval(confidence, n, p)], for a confidence level in [0, 1]
    (the source passes 0.95): the equal-tailed interval
    [(ppf((1 - confidence)/2), ppf((1 + confidence)/2))]; [nan] bounds on
    invalid parameters. *)
Definition binom_interval (confidence : Q) (n : Z) (p : Q) : pyfloat * pyfloat :=
  if argcheck n p then
    (Fin (inject_Z (Z.of_nat (ppf (Z.to_nat n) p ((1 - confidence) / 2)))),
     Fin (inject_Z (Z.of_nat (ppf (Z.to_nat n) p ((1 + confidence) / 2)))))
  else (NaN, NaN).

(* ------------------------------------------------------------------ *)
(** ** SciPy: [scipy.stats.binomtest(k, n, p, alternative='two-sided')]

    Available from SciPy 1.7.0.  Arguments are validated ([k >= 0],
    [n >= 1], [k <= n], [0 <= p <= 1]; a [ValueError] otherwise).  The
    two-sided p-value adds to the observed tail the outcomes on the other
    side of the mean whose probability does not exceed that of the
    observation (with relative tolerance [1e-7]), and is capped at 1. *)

Definition rerr : Q := 1 + (1 # 10000000).

(** Number of [i] in [[lo, hi]] with [pmf(i) <= bound]. *)
Definition count_le (n : nat) (p bound : Q) (lo hi : nat) : nat :=
  List.length (filter (fun i => Qle_bool (pmf n p i) bound) (seq lo (S hi - lo))).

Definition two_sided_pvalue (k n : nat) (p : Q) : Q :=
  let d := pmf n p k in
  let m := p * inject_Z (Z.of_nat n) in
  let pval :=
    if Qeq_bool (inject_Z (Z.of_nat k)) m then 1
    else if negb (Qle_bool m (inject_Z (Z.of_nat k))) then
      let y := count_le n p (d * rerr) (Z.to_nat (Qceiling m)) n in
      cdf n p (Z.of_nat k) + sf n p (Z.of_nat n - Z.of_nat y)
    else
      let y := count_le n p (d * rerr) 0 (Z.to_nat (Qfloor m)) in
      cdf n p (Z.of_nat y - 1) + sf n p (Z.of_nat k - 1)
  in Qmin 1 pval.

Definition binomtest (k n : Z) (p : Q) : result pyfloat :=
  if (k <? 0)%Z then Raise ValueError
  else if (n <? 1)%Z then Raise ValueError
  else if (n <? k)%Z then Raise ValueError
  else if negb (Qle_bool 0 p && Qle_bool p 1) then Raise ValueError
  else Ok (Fin (two_sided_pvalue (Z.to_nat k) (Z.to_nat n) p)).

(** The installed SciPy either provides [stats.binomtest] or not; looking
    up a missing attribute raises [AttributeError]. *)
Definition stats_binomtest (has_binomtest : bool) (k n : Z) (p : Q)
  : result pyfloat :=
  if has_binomtest then binomtest k n p else Raise AttributeError.

(* ------------------------------------------------------------------ *)
(** ** [perform_binomial_test] *)

Record test_dict : Type := mk_test {
  p_value : pyfloat;
  is_fair : bool;
  confidence_interval : pyfloat * pyfloat
}.

(** The [except AttributeError] branch: manual p-value. *)
Definition manual_p_value (n_caras n_total : Z) (p : Q) : pyfloat :=
  let p_value :=
    if Qle_bool (inject_Z n_caras) (inject_Z n_total * p)
    then fmul (Fin 2) (binom_cdf n_caras n_total p)
    else fmul (Fin 2) (fsub (Fin 1) (binom_cdf (n_caras - 1) n_total p)) in
  pymin p_value (Fin 1).

Definition finish_test (n_total : Z) (p : Q) (p_value : pyfloat) : test_dict :=
  let confidence_interval := binom_interval (95 # 100) n_total p in
  {| p_value := p_value;
     is_fair := fgt p_value (Fin (5 # 100));
     confidence_interval := confidence_interval |}.

Definition perform_binomial_test (has_binomtest : bool) (n_caras n_total : Z) (p : Q)
  : result test_dict :=
  match stats_binomtest has_binomtest n_caras n_total p with
  | Ok p_value => Ok (finish_test n_total p p_value)
  | Raise AttributeError => Ok (finish_test n_total p (manual_p_value n_caras n_total p))
  | Raise e => Raise e
  end.

(* ------------------------------------------------------------------ *)
(** ** The specification's formulas

    Written from the specification's wording, to be compared with what
    [perform_binomial_test] returns. *)

(** "if headsCount <= totalCount * expectedProbability, p-value =
    min(1, 2 CDF(headsCount)); otherwise p-value =
    min(1, 2 (1 - CDF(headsCount - 1)))" *)
Definition spec_p_value (headsCount totalCount : Z) (expectedProbability : Q) : Q :=
  let n := Z.to_nat totalCount in
  if Qle_bool (inject_Z headsCount) (inject_Z totalCount * expectedProbability)
  then Qmin 1 (2 * cdf n expectedProbability headsCount)
  else Qmin 1 (2 * (1 - cdf n expectedProbability (headsCount - 1))).

(** Probability mass of the counts [lo..hi]. *)
Definition interval_mass (n : nat) (p : Q) (lo hi : Z) : Q :=
  cdf n p hi - cdf n p (lo - 1).

(** "the smallest-width interval [lo, hi] of integer outcome counts such
    that the binomial distribution places at least 95% of its mass within
    [lo, hi] inclusive" *)
Definition spec_smallest_interval (n : nat) (p : Q) (lo hi : Z) : Prop :=
  (0 <= lo <= hi)%Z /\ (hi <= Z.of_nat n)%Z /\
  95 # 100 <= interval_mass n p lo hi /\
  forall a b : Z,
    (0 <= a <= b)%Z -> (b <= Z.of_nat n)%Z ->
    95 # 100 <= interval_mass n p a b -> (hi - lo <= b - a)%Z.

(* ------------------------------------------------------------------ *)
(** ** Plotly figures

    A figure is kept as the data it plots and its title; colours, sizes
    and the other styling attributes are left out. *)

Inductive trace : Type :=
| Pie (labels : list string) (values : list Z)
| Bar (x : list string) (y : list Z) (text : list Z)
| Scatter (x : list Z) (y : list Z) (name : string).

Record figure : Type := mk_figure {
  data : list trace;
  title_text : string
}.

(** [list(range(a, b))] *)
Definition py_range (a b : Z) : list Z :=
  map (fun i => (a + Z.of_nat i)%Z) (seq 0 (Z.to_nat (b - a))).

(* ------------------------------------------------------------------ *)
(** ** [create_pie_chart], [create_bar_chart] *)

Definition create_pie_chart (stats : stats_dict) : figure :=
  {| data := [Pie [Cara; Cruz] [caras stats; cruces stats]];
     title_text := "Distribución de Resultados" |}.

Definition create_bar_chart (stats : stats_dict) : figure :=
  {| data := [Bar [Cara; Cruz] [caras stats; cruces stats]
                  [caras stats; cruces stats]];
     title_text := "Frecuencia de Resultados" |}.

(* ------------------------------------------------------------------ *)
(** ** [create_cumulative_chart] *)

(** The variables of the accumulation loop. *)
Record acum : Type := mk_acum {
  caras_acum : list Z;
  cruces_acum : list Z;
  caras_count : Z;
  cruces_count : Z
}.

Definition acum_init : acum :=
  {| caras_acum := []; cruces_acum := []; caras_count := 0; cruces_count := 0 |}.

(** One iteration of [for result in results]. *)
Definition acum_step (st : acum) (result : string) : acum :=
  let caras_count' :=
    if string_dec result Cara then (caras_count st + 1)%Z else caras_count st in
  let cruces_count' :=
    if string_dec result Cara then cruces_count st else (cruces_count st + 1)%Z in
  {| caras_acum := caras_acum st ++ [caras_count'];
     cruces_acum := cruces_acum st ++ [cruces_count'];
     caras_count := caras_count';
     cruces_count := cruces_count' |}.

Definition acum_loop (results : list string) : acum :=
  fold_left acum_step results acum_init.

Definition create_cumulative_chart (results : list string) : figure :=
  let st := acum_loop results in
  {| data := [Scatter (py_range 1 (py_len results + 1)) (caras_acum st) "Caras";
              Scatter (py_range 1 (py_len results + 1)) (cruces_acum st) "Cruces"];
     title_text := "Resultados Acumulativos" |}.

(** The plotted lists of the [k]-th trace of a figure ([fig.data[k].x],
    [fig.data[k].y]); a pie has its values for [y] and no [x]. *)
Definition trace_y (t : trace) : list Z :=
  match t with
  | Pie _ values => values
  | Bar _ y _ => y
  | Scatter _ y _ => y
  end.

Definition trace_x (t : trace) : list Z :=
  match t with
  | Scatter x _ _ => x
  | _ => []
  end.

Definition series (f : figure) (k : nat) : list Z :=
  match nth_error (data f) k with
  | Some t => trace_y t
  | None => []
  end.

Definition axis (f : figure) (k : nat) : list Z :=
  match nth_error (data f) k with
  | Some t => trace_x t
  | None => []
  end.

(* ------------------------------------------------------------------ *)
(** ** The page script

    One execution of the script part of [app.py] for given widget values.
    [st.session_state] holds the keys 'results' and 'stats'; a button is
    [true] in the execution its click triggers; [st.rerun()] ends the
    execution and starts another one, in which no button is pressed; an
    uncaught exception ends the execution.  Texts, formatted numbers and
    layout are left out: a page is kept as the values it shows. *)

Record session_state : Type := mk_session {
  ss_results : option (list string);
  ss_stats : option stats_dict
}.

Definition empty_session : session_state :=
  {| ss_results := None; ss_stats := None |}.

Record widgets : Type := mk_widgets {
  n_flips : Z;
  probability : Q;
  lanzar : bool;
  limpiar : bool
}.

Record results_page : Type := mk_results_page {
  metric_total : Z;
  metric_caras : Z;
  metric_cruces : Z;
  diferencia : Z;
  tab1 : figure;
  tab2 : figure;
  tab3 : figure;
  test_results : test_dict;
  df_results : list (Z * string)
}.

Inductive page : Type :=
| Welcome
| Results (r : results_page).

Inductive script_exn : Type :=
| KeyError
| Uncaught (e : exn).

Inductive outcome : Type :=
| Rendered (pg : page)
| Rerun
| Failed (e : script_exn).

(** [if st.sidebar.button("Lanzar Moneda")]: flip, summarise, store. *)
Definition launch (w : widgets) (ss : session_state) (g : rng)
  : result session_state * rng :=
  if lanzar w then
    match flip_coin (n_flips w) (probability w) g with
    | (Ok results, g') =>
        let stats_data := calculate_statistics results in
        (Ok {| ss_results := Some results; ss_stats := Some stats_data |}, g')
    | (Raise e, g') => (Raise e, g')
    end
  else (Ok ss, g).

(** [if 'results' in st.session_state: del ...; del ...], a [KeyError]
    when 'stats' is missing. *)
Definition clear (ss : session_state) : session_state * option script_exn :=
  match ss_results ss with
  | Some _ =>
      match ss_stats ss with
      | Some _ => (empty_session, None)
      | None => ({| ss_results := None; ss_stats := None |}, Some KeyError)
      end
  | None => (ss, None)
  end.

(** The "MOSTRAR RESULTADOS" part. *)
Definition show (has_binomtest : bool) (ss : session_state) : outcome :=
  match ss_results ss with
  | Some results =>
      match ss_stats ss with
      | None => Failed KeyError
      | Some stats_data =>
          let diferencia := Z.abs (caras stats_data - cruces stats_data) in
          let fig1 := create_pie_chart stats_data in
          let fig2 := create_bar_chart stats_data in
          let fig3 := create_cumulative_chart results in
          match perform_binomial_test has_binomtest
                  (caras stats_data) (total stats_data) (1 # 2) with
          | Raise e => Failed (Uncaught e)
          | Ok test_results =>
              Rendered (Results
                {| metric_total := total stats_data;
                   metric_caras := caras stats_data;
                   metric_cruces := cruces stats_data;
                   diferencia := diferencia;
                   tab1 := fig1; tab2 := fig2; tab3 := fig3;
                   test_results := test_results;
                   df_results :=
                     combine (py_range 1 (py_len results + 1)) results |})
          end
      end
  | None => Rendered Welcome
  end.

Definition script (has_binomtest : bool) (w : widgets) (ss : session_state) (g : rng)
  : outcome * session_state * rng :=
  match launch w ss g with
  | (Raise e, g') => (Failed (Uncaught e), ss, g')
  | (Ok ss1, g1) =>
      if limpiar w then
        match clear ss1 with
        | (ss2, Some e) => (Failed e, ss2, g1)
        | (ss2, None) => (Rerun, ss2, g1)
        end
      else (show has_binomtest ss1, ss1, g1)
  end.

(** A user action: the execution it triggers and, after [st.rerun()], the
    execution that follows. *)
Definition interaction (has_binomtest : bool) (w : widgets) (ss : session_state) (g : rng)
  : outcome * session_state * rng :=
  match script has_binomtest w ss g with
  | (Rerun, ss', g') =>
      script has_binomtest
        {| n_flips := n_flips w; probability := probability w;
           lanzar := false; limpiar := false |} ss' g'
  | r => r
  end.

(** A session: the actions of a user, one after the other. *)
Fixpoint session (has_binomtest : bool) (ws : list widgets)
    (ss : session_state) (g : rng) : list outcome * session_state * rng :=
  match ws with
  | [] => ([], ss, g)
  | w :: ws' =>
      match interaction has_binomtest w ss g with
      | (o, ss', g') =>
          match session has_binomtest ws' ss' g' with
          | (os, ss'', g'') => (o :: os, ss'', g'')
          end
      end
  end.

(** What the sliders allow, and at most one button per execution. *)
Definition slider_values (w : widgets) : Prop :=
  (1 <= n_flips w <= 1000)%Z /\ 0 <= probability w <= 1.

(** The two keys are stored and deleted together, and the stored
    statistics are those of the stored results. *)
Definition coherent (ss : session_state) : Prop :=
  match ss_results ss, ss_stats ss with
  | None, None => True
  | Some results, Some stats_data =>
      stats_data = calculate_statistics results /\
      (1 <= py_len results <= 1000)%Z /\ Forall is_outcome results
  | _, _ => False
  end.

(* ================================================================== *)
(** * Properties *)

(* ------------------------------------------------------------------ *)
(** ** Counting outcomes *)

Section Counting.

Local Open Scope nat_scope.

Lemma Cara_neq_Cruz : Cara <> Cruz.
Proof. discriminate. Qed.

Lemma count_pair_le (l : list string) :
  count_occ string_dec l Cara + count_occ string_dec l Cruz <= List.length l.
Proof.
  induction l as [|x l IH]; simpl; [lia|].
  destruct (string_dec x Cara) as [e1|n1], (string_dec x Cruz) as [e2|n2]; try lia.
  exfalso. apply Cara_neq_Cruz. congruence.
Qed.

Lemma count_pair_all (l : list string) :
  Forall is_outcome l ->
  count_occ string_dec l Cara + count_occ string_dec l Cruz = List.length l.
Proof.
  induction 1 as [|x l Hx _ IH]; simpl; [reflexivity|].
  destruct (string_dec x Cara) as [e1|n1], (string_dec x Cruz) as [e2|n2].
  - exfalso. apply Cara_neq_Cruz. congruence.
  - lia.
  - lia.
  - destruct Hx; contradiction.
Qed.

Lemma count_pair_stranger (l : list string) :
  Exists (fun x => ~ is_outcome x) l ->
  count_occ string_dec l Cara + count_occ string_dec l Cruz < List.length l.
Proof.
  induction 1 as [x l Hx | x l _ IH]; simpl.
  - pose proof (count_pair_le l).
    destruct (string_dec x Cara) as [e1|n1]; [exfalso; apply Hx; left; exact e1|].
    destruct (string_dec x Cruz) as [e2|n2]; [exfalso; apply Hx; right; exact e2|].
    lia.
  - destruct (string_dec x Cara) as [e1|n1], (string_dec x Cruz) as [e2|n2]; try lia.
    exfalso. apply Cara_neq_Cruz. congruence.
Qed.

Lemma is_outcome_dec (x : string) : {is_outcome x} + {~ is_outcome x}.
Proof.
  unfold is_outcome.
  destruct (string_dec x Cara); [left; tauto|].
  destruct (string_dec x Cruz); [left; tauto|right; tauto].
Qed.

Lemma count_pair_eq_all (l : list string) :
  count_occ string_dec l Cara + count_occ string_dec l Cruz = List.length l ->
  Forall is_outcome l.
Proof.
  intros H.
  destruct (Forall_Exists_dec is_outcome is_outcome_dec l) as [F|E]; [exact F|].
  apply count_pair_stranger in E. lia.
Qed.

End Counting.

(* ------------------------------------------------------------------ *)
(** ** Percentages *)

Lemma inject_Z_pos (t : Z) : (0 < t)%Z -> 0 < inject_Z t.
Proof. intros H. unfold Qlt. simpl. lia. Qed.

Lemma inject_Z_nonneg (t : Z) : (0 <= t)%Z -> 0 <= inject_Z t.
Proof. intros H. unfold Qle. simpl. lia. Qed.

Lemma inject_Z_neq0 (t : Z) : (0 < t)%Z -> ~ inject_Z t == 0.
Proof. intros H E. apply inject_Z_pos in H. rewrite E in H. lra. Qed.

Lemma percentage_zero_total (c : Z) : percentage c 0 = 0.
Proof. reflexivity. Qed.

Lemma percentage_range (c t : Z) :
  (0 <= c <= t)%Z -> 0 <= percentage c t /\ percentage c t <= 100.
Proof.
  intros [Hc Hct]. unfold percentage.
  destruct (0 <? t)%Z eqn:Ht; [|lra].
  apply Z.ltb_lt in Ht.
  pose proof (inject_Z_pos t Ht) as Ht'.
  assert (H0 : 0 <= inject_Z c / inject_Z t).
  { apply Qle_shift_div_l; [exact Ht'|].
    rewrite Qmult_0_l. apply inject_Z_nonneg, Hc. }
  assert (H1 : inject_Z c / inject_Z t <= 1).
  { apply Qle_shift_div_r; [exact Ht'|].
    rewrite Qmult_1_l, <- Zle_Qle. exact Hct. }
  split; lra.
Qed.

Lemma percentage_add (c d t : Z) :
  (0 < t)%Z ->
  percentage c t + percentage d t == inject_Z (c + d) / inject_Z t * 100.
Proof.
  intros Ht. unfold percentage.
  apply Z.ltb_lt in Ht as Hb. rewrite Hb.
  rewrite inject_Z_plus. field. apply inject_Z_neq0, Ht.
Qed.

Lemma percentage_add_full (c d t : Z) :
  (0 < t)%Z -> (c + d = t)%Z -> percentage c t + percentage d t == 100.
Proof.
  intros Ht E. rewrite percentage_add by exact Ht. rewrite E.
  field. apply inject_Z_neq0, Ht.
Qed.

Lemma percentage_add_short (c d t : Z) :
  (0 < t)%Z -> (c + d < t)%Z -> percentage c t + percentage d t < 100.
Proof.
  intros Ht Hlt. rewrite percentage_add by exact Ht.
  pose proof (inject_Z_pos t Ht) as Ht'.
  assert (H1 : inject_Z (c + d) / inject_Z t < 1).
  { apply Qlt_shift_div_r; [exact Ht'|].
    rewrite Qmult_1_l, <- Zlt_Qlt. exact Hlt. }
  lra.
Qed.

(* ------------------------------------------------------------------ *)
(** ** [calculate_statistics]: the claims *)

(** C4. For every trial sequence (a list whose elements are 'Cara' or
    'Cruz') the summary satisfies heads + tails = total, and total is the
    length of the sequence. *)
Theorem calculate_statistics_counts_add_up (results : list string) :
  Forall is_outcome results ->
  let s := calculate_statistics results in
  (caras s + cruces s = total s)%Z /\
  total s = Z.of_nat (List.length results).
Proof.
  intros H. simpl. unfold py_count, py_len.
  split; [|reflexivity].
  rewrite <- Nat2Z.inj_add. f_equal. apply count_pair_all, H.
Qed.

Lemma calculate_statistics_counts_add_up_witness :
  let s := calculate_statistics [Cara; Cruz; Cruz; Cara; Cara] in
  (caras s + cruces s = total s)%Z /\ total s = 5%Z.
Proof.
  apply (calculate_statistics_counts_add_up [Cara; Cruz; Cruz; Cara; Cara]).
  all_outcomes.
Defined.

(** C5. For every trial sequence both percentages lie in [0, 100]; they
    sum to 100 when the total is positive; on the empty sequence the call
    succeeds with total 0 and both percentages 0. *)
Theorem calculate_statistics_percentages (results : list string) :
  Forall is_outcome results ->
  let s := calculate_statistics results in
  0 <= porcentaje_caras s <= 100 /\
  0 <= porcentaje_cruces s <= 100 /\
  ((0 < total s)%Z -> porcentaje_caras s + porcentaje_cruces s == 100) /\
  (results = [] ->
   total s = 0%Z /\ porcentaje_caras s = 0 /\ porcentaje_cruces s = 0).
Proof.
  intros H. simpl.
  pose proof (count_pair_le results) as Hle.
  pose proof (count_pair_all results H) as Heq.
  unfold py_count, py_len.
  repeat split.
  - apply percentage_range. lia.
  - apply percentage_range. lia.
  - apply percentage_range. lia.
  - apply percentage_range. lia.
  - intros Ht. apply percentage_add_full; [exact Ht|lia].
  - subst results. reflexivity.
  - subst results. reflexivity.
  - subst results. reflexivity.
Qed.

Lemma calculate_statistics_percentages_witness :
  let s := calculate_statistics [Cara; Cruz; Cruz] in
  0 <= porcentaje_caras s <= 100 /\
  0 <= porcentaje_cruces s <= 100 /\
  ((0 < total s)%Z -> porcentaje_caras s + porcentaje_cruces s == 100) /\
  ([Cara; Cruz; Cruz] = [] ->
   total s = 0%Z /\ porcentaje_caras s = 0 /\ porcentaje_cruces s = 0).
Proof.
  apply (calculate_statistics_percentages [Cara; Cruz; Cruz]).
  all_outcomes.
Defined.

(** C10. Only elements equal to 'Cara' or 'Cruz' are counted: when the
    list holds an element that is neither, heads + tails is strictly below
    the total and the percentages sum to strictly less than 100; heads +
    tails = total holds exactly when every element is one of the two
    labels. *)
Theorem calculate_statistics_counts_labels_only (results : list string) :
  let s := calculate_statistics results in
  (Exists (fun x => ~ is_outcome x) results ->
   (caras s + cruces s < total s)%Z /\
   porcentaje_caras s + porcentaje_cruces s < 100) /\
  ((caras s + cruces s = total s)%Z <-> Forall is_outcome results).
Proof.
  simpl. unfold py_count, py_len. split.
  - intros E. apply count_pair_stranger in E.
    split; [lia|]. apply percentage_add_short; lia.
  - split.
    + intros E. apply count_pair_eq_all. lia.
    + intros F. apply count_pair_all in F. lia.
Qed.

Lemma calculate_statistics_counts_labels_only_witness :
  let s := calculate_statistics [Cara; "cara"%string; Cruz] in
  (caras s + cruces s < total s)%Z /\
  porcentaje_caras s + porcentaje_cruces s < 100.
Proof.
  apply (calculate_statistics_counts_labels_only [Cara; "cara"%string; Cruz]).
  apply Exists_cons_tl, Exists_cons_hd.
  unfold is_outcome. intros [E|E]; discriminate E.
Defined.

(* ------------------------------------------------------------------ *)
(** ** [flip_coin]: the claims *)

Lemma outcome_of_is_outcome (p u : Q) : is_outcome (outcome_of p u).
Proof. unfold outcome_of, is_outcome. destruct (Qle_bool p u); auto. Qed.

Lemma take_indices_map (a : list string) (f : Q -> nat) (h : Q -> string) (us : list Q) :
  (forall u, In u us -> nth_error a (f u) = Some (h u)) ->
  take_indices a (map f us) = Ok (map h us).
Proof.
  induction us as [|u us IH]; intros H; simpl; [reflexivity|].
  rewrite (H u) by (left; reflexivity).
  rewrite IH by (intros v Hv; apply H; right; exact Hv).
  reflexivity.
Qed.

Lemma coin_index (p u : Q) :
  u < 1 ->
  nth_error [Cara; Cruz]
    (searchsorted_right
       (map (fun c => c / last (cumsum [p; 1 - p]) 1) (cumsum [p; 1 - p])) u)
  = Some (outcome_of p u).
Proof.
  intros Hu. unfold searchsorted_right, cumsum, outcome_of. simpl.
  set (s := 0 + p + (1 - p)).
  assert (Hs : s == 1) by (unfold s; ring).
  assert (E1 : (0 + p) / s == p) by (rewrite Hs; field).
  assert (E2 : s / s == 1) by (rewrite Hs; field).
  assert (M : Qle_bool ((0 + p) / s) u = Qle_bool p u).
  { apply Qleb_comp; [exact E1|reflexivity]. }
  assert (N : Qle_bool (s / s) u = false).
  { destruct (Qle_bool (s / s) u) eqn:B; [|reflexivity].
    apply Qle_bool_iff in B. rewrite E2 in B. lra. }
  rewrite M, N. destruct (Qle_bool p u); reflexivity.
Qed.

Lemma flip_coin_valid (n : Z) (p : Q) (g : rng) :
  (0 <= n)%Z -> 0 <= p <= 1 ->
  (forall i, (i < Z.to_nat n)%nat -> g i < 1) ->
  flip_coin n p g =
  (Ok (map (outcome_of p) (rng_take (Z.to_nat n) g)), rng_drop (Z.to_nat n) g).
Proof.
  intros Hn [Hp0 Hp1] Hg. unfold flip_coin, random_choice.
  cbn [List.length Nat.eqb negb existsb qsum fold_right orb].
  assert (B0 : Qle_bool 0 p = true) by (apply Qle_bool_iff; exact Hp0).
  assert (B1 : Qle_bool 0 (1 - p) = true) by (apply Qle_bool_iff; lra).
  assert (B2 : Qeq_bool (p + (1 - p + 0)) 1 = true) by (apply Qeq_bool_iff; ring).
  assert (B3 : (n <? 0)%Z = false) by (apply Z.ltb_ge; exact Hn).
  rewrite B0, B1, B2, B3. cbn [negb orb].
  f_equal. apply take_indices_map.
  intros u Hu. apply coin_index.
  unfold rng_take in Hu. apply in_map_iff in Hu as [i [<- Hi]].
  apply Hg. apply in_seq in Hi. lia.
Qed.

Lemma flip_coin_negative_count (n : Z) (p : Q) (g : rng) :
  (n < 0)%Z -> fst (flip_coin n p g) = Raise ValueError.
Proof.
  intros Hn. unfold flip_coin, random_choice.
  cbn [List.length Nat.eqb negb].
  destruct (existsb _ _); [reflexivity|].
  destruct (negb (Qeq_bool _ _)); [reflexivity|].
  apply Z.ltb_lt in Hn. rewrite Hn. reflexivity.
Qed.

Lemma flip_coin_bad_probability (n : Z) (p : Q) (g : rng) :
  p < 0 \/ 1 < p -> fst (flip_coin n p g) = Raise ValueError.
Proof.
  intros Hp. unfold flip_coin, random_choice.
  cbn [List.length Nat.eqb negb existsb].
  assert (B : negb (Qle_bool 0 p) || (negb (Qle_bool 0 (1 - p)) || false) = true).
  { destruct Hp as [Hp|Hp].
    - destruct (Qle_bool 0 p) eqn:B0; [|reflexivity].
      apply Qle_bool_iff in B0. lra.
    - destruct (Qle_bool 0 (1 - p)) eqn:B1; [|apply orb_true_r].
      apply Qle_bool_iff in B1. lra. }
  rewrite B. reflexivity.
Qed.

Lemma sample_rng_uniform : uniform_source sample_rng.
Proof.
  intros i. unfold sample_rng, Qle, Qlt. simpl. lia.
Qed.

(** C8. For every count N with 1 <= N <= 1000 and every probability p in
    [0, 1], [flip_coin] returns a list of exactly N elements, each 'Cara' or
    'Cruz'; the i-th element is the outcome of the i-th uniform sample. *)
Theorem flip_coin_returns_n_outcomes (N : Z) (p : Q) (g : rng) :
  (1 <= N <= 1000)%Z -> 0 <= p <= 1 -> uniform_source g ->
  exists l,
    fst (flip_coin N p g) = Ok l /\
    List.length l = Z.to_nat N /\
    Forall is_outcome l /\
    forall i, (i < Z.to_nat N)%nat -> nth_error l i = Some (outcome_of p (g i)).
Proof.
  intros HN Hp Hg.
  rewrite flip_coin_valid; [|lia|exact Hp|intros i _; apply Hg].
  exists (map (outcome_of p) (rng_take (Z.to_nat N) g)).
  split; [reflexivity|]. split; [|split].
  - unfold rng_take. rewrite !length_map, length_seq. reflexivity.
  - apply Forall_forall. intros x Hx.
    apply in_map_iff in Hx as [u [<- _]]. apply outcome_of_is_outcome.
  - intros i Hi. unfold rng_take. rewrite map_map.
    rewrite nth_error_map, nth_error_seq.
    apply Nat.ltb_lt in Hi. rewrite Hi. reflexivity.
Qed.

Lemma flip_coin_returns_n_outcomes_witness :
  exists l,
    fst (flip_coin 3 (1 # 2) sample_rng) = Ok l /\
    List.length l = 3%nat /\
    Forall is_outcome l /\
    forall i, (i < 3)%nat -> nth_error l i = Some (outcome_of (1 # 2) (sample_rng i)).
Proof.
  apply (flip_coin_returns_n_outcomes 3 (1 # 2) sample_rng).
  - lia.
  - lra.
  - exact sample_rng_uniform.
Defined.

(** C6, as stated, fails at count = 0: with a valid probability the call
    is not rejected and the empty list is returned. *)
Lemma flip_coin_zero_count_returns_empty :
  fst (flip_coin 0 (1 # 2) sample_rng) = Ok [].
Proof. reflexivity. Qed.

(** C6, amended. A negative count, or a probability outside [0, 1] (with
    any count), makes [flip_coin] fail with the ValueError raised by
    [numpy.random.choice], and no list is returned; a count of 0 with a
    probability in [0, 1] is accepted and yields the empty list. *)
Theorem flip_coin_invalid_parameter (n : Z) (p : Q) (g : rng) :
  ((n < 0)%Z \/ p < 0 \/ 1 < p -> fst (flip_coin n p g) = Raise ValueError) /\
  (n = 0%Z -> 0 <= p <= 1 -> fst (flip_coin n p g) = Ok []).
Proof.
  split.
  - intros [Hn|Hp].
    + apply flip_coin_negative_count, Hn.
    + apply flip_coin_bad_probability, Hp.
  - intros -> Hp. rewrite flip_coin_valid; [reflexivity|lia|exact Hp|].
    intros i Hi. simpl in Hi. lia.
Qed.

Lemma flip_coin_invalid_parameter_witness :
  fst (flip_coin (-3) (1 # 2) sample_rng) = Raise ValueError /\
  fst (flip_coin 10 (3 # 2) sample_rng) = Raise ValueError /\
  fst (flip_coin 0 (1 # 4) sample_rng) = Ok [].
Proof.
  split; [|split].
  - apply (flip_coin_invalid_parameter (-3) (1 # 2) sample_rng). left. lia.
  - apply (flip_coin_invalid_parameter 10 (3 # 2) sample_rng). right. right. lra.
  - apply (flip_coin_invalid_parameter 0 (1 # 4) sample_rng); [reflexivity|lra].
Defined.

(* ------------------------------------------------------------------ *)
(** ** Binomial coefficients *)

Lemma pascal_zero (n : nat) : pascal n 0 = 1%Z.
Proof. destruct n; reflexivity. Qed.

Lemma pascal_above (n k : nat) : (n < k)%nat -> pascal n k = 0%Z.
Proof.
  revert k. induction n as [|n IH]; intros k H.
  - destruct k; [lia|reflexivity].
  - destruct k as [|k]; [lia|]. simpl.
    rewrite (IH k), (IH (S k)) by lia. reflexivity.
Qed.

Lemma pascal_nonneg (n k : nat) : (0 <= pascal n k)%Z.
Proof.
  revert k. induction n as [|n IH]; intros k.
  - destruct k; simpl; lia.
  - destruct k as [|k]; simpl; [lia|].
    pose proof (IH k). pose proof (IH (S k)). lia.
Qed.

(** The absorption identity [(k+1) C(n, k+1) = (n-k) C(n, k)]. *)
Lemma pascal_absorb (n k : nat) :
  (Z.of_nat (S k) * pascal n (S k) = (Z.of_nat n - Z.of_nat k) * pascal n k)%Z.
Proof.
  revert k. induction n as [|n IH]; intros k.
  - destruct k as [|k]; simpl; lia.
  - destruct k as [|k].
    + pose proof (IH 0%nat) as H0.
      change (pascal (S n) 1) with (pascal n 0 + pascal n 1)%Z.
      rewrite !pascal_zero in *. lia.
    + pose proof (IH k) as H1. pose proof (IH (S k)) as H2.
      change (pascal (S n) (S (S k))) with (pascal n (S k) + pascal n (S (S k)))%Z.
      change (pascal (S n) (S k)) with (pascal n k + pascal n (S k))%Z.
      rewrite !Nat2Z.inj_succ in *. nia.
Qed.

Lemma choose_pascal (n k : nat) : choose n k = pascal n k.
Proof.
  induction k as [|k IH].
  - destruct n; reflexivity.
  - cbn [choose]. rewrite IH.
    destruct (Nat.le_gt_cases n k) as [Hle|Hlt].
    + replace (n - k)%nat with 0%nat by lia.
      rewrite Z.mul_0_r, pascal_above by lia. reflexivity.
    + rewrite Nat2Z.inj_sub by lia.
      rewrite (Z.mul_comm (pascal n k)), <- pascal_absorb.
      rewrite Z.mul_comm. apply Z.div_mul. lia.
Qed.

(* ------------------------------------------------------------------ *)
(** ** The binomial distribution *)

Lemma qpow_nonneg (x : Q) (e : nat) : 0 <= x -> 0 <= qpow x e.
Proof.
  intros Hx. induction e as [|e IH]; simpl; [lra|].
  apply Qmult_le_0_compat; assumption.
Qed.

Lemma pmf_pascal (n : nat) (p : Q) (i : nat) :
  pmf n p i = inject_Z (pascal n i) * qpow p i * qpow (1 - p) (n - i).
Proof. unfold pmf. rewrite choose_pascal. reflexivity. Qed.

Lemma pmf_nonneg (n : nat) (p : Q) (i : nat) : 0 <= p <= 1 -> 0 <= pmf n p i.
Proof.
  intros [H0 H1]. rewrite pmf_pascal.
  apply Qmult_le_0_compat; [apply Qmult_le_0_compat|].
  - apply inject_Z_nonneg, pascal_nonneg.
  - apply qpow_nonneg, H0.
  - apply qpow_nonneg. lra.
Qed.

Lemma pmf_above (n : nat) (p : Q) (i : nat) : (n < i)%nat -> pmf n p i == 0.
Proof.
  intros H. rewrite pmf_pascal, pascal_above by exact H. ring.
Qed.

Lemma pmf_zero_trials (p : Q) : pmf 0 p 0 == 1.
Proof.
  rewrite pmf_pascal. cbn [pascal qpow Nat.sub].
  change (inject_Z 1) with 1. ring.
Qed.

Lemma pmf_step_zero (n : nat) (p : Q) : pmf (S n) p 0 == (1 - p) * pmf n p 0.
Proof.
  rewrite !pmf_pascal, !Nat.sub_0_r.
  rewrite !pascal_zero. cbn [qpow].
  change (inject_Z 1) with 1. ring.
Qed.

(** One more trial: success with probability [p], failure otherwise. *)
Lemma pmf_step (n : nat) (p : Q) (i : nat) :
  pmf (S n) p (S i) == p * pmf n p i + (1 - p) * pmf n p (S i).
Proof.
  rewrite !pmf_pascal.
  change (S n - S i)%nat with (n - i)%nat.
  change (pascal (S n) (S i)) with (pascal n i + pascal n (S i))%Z.
  rewrite inject_Z_plus.
  destruct (Nat.le_gt_cases n i) as [Hle|Hlt].
  - rewrite (pascal_above n (S i)) by lia. cbn [qpow].
    change (inject_Z 0) with 0. ring.
  - replace (n - i)%nat with (S (n - S i)) by lia. cbn [qpow]. ring.
Qed.

Lemma cdf_upto_step_zero (n : nat) (p : Q) :
  cdf_upto (S n) p 0 == (1 - p) * cdf_upto n p 0.
Proof. simpl. apply pmf_step_zero. Qed.

Lemma cdf_upto_step (n : nat) (p : Q) (m : nat) :
  cdf_upto (S n) p (S m) == p * cdf_upto n p m + (1 - p) * cdf_upto n p (S m).
Proof.
  induction m as [|m IH].
  - simpl. rewrite pmf_step_zero, pmf_step. ring.
  - change (cdf_upto (S n) p (S (S m)))
      with (cdf_upto (S n) p (S m) + pmf (S n) p (S (S m))).
    rewrite IH, pmf_step. simpl. ring.
Qed.

(** The probabilities of a binomial distribution add up to 1. *)
Lemma cdf_upto_full (n : nat) (p : Q) (m : nat) :
  (n <= m)%nat -> cdf_upto n p m == 1.
Proof.
  revert m. induction n as [|n IH]; intros m H.
  - induction m as [|m IHm].
    + simpl. apply pmf_zero_trials.
    + simpl. rewrite IHm by lia. rewrite pmf_above by lia. ring.
  - destruct m as [|m]; [lia|].
    rewrite cdf_upto_step, !IH by lia. ring.
Qed.

Lemma cdf_upto_succ_le (n : nat) (p : Q) (m : nat) :
  0 <= p <= 1 -> cdf_upto n p m <= cdf_upto n p (S m).
Proof.
  intros Hp. simpl. pose proof (pmf_nonneg n p (S m) Hp). lra.
Qed.

Lemma cdf_upto_mono (n : nat) (p : Q) (a b : nat) :
  0 <= p <= 1 -> (a <= b)%nat -> cdf_upto n p a <= cdf_upto n p b.
Proof.
  intros Hp H. induction H as [|b H IH]; [lra|].
  pose proof (cdf_upto_succ_le n p b Hp). lra.
Qed.

Lemma cdf_upto_nonneg (n : nat) (p : Q) (m : nat) :
  0 <= p <= 1 -> 0 <= cdf_upto n p m.
Proof.
  intros Hp. induction m as [|m IH]; simpl.
  - apply pmf_nonneg, Hp.
  - pose proof (pmf_nonneg n p (S m) Hp). lra.
Qed.

Lemma cdf_upto_le_1 (n : nat) (p : Q) (m : nat) :
  0 <= p <= 1 -> cdf_upto n p m <= 1.
Proof.
  intros Hp.
  rewrite <- (cdf_upto_full n p (Nat.max m n)) by lia.
  apply cdf_upto_mono; [exact Hp|lia].
Qed.

(** Adding a trial moves mass upwards: the distribution function can only
    decrease. *)
Lemma cdf_upto_more_trials (n : nat) (p : Q) (m : nat) :
  0 <= p <= 1 -> cdf_upto (S n) p m <= cdf_upto n p m.
Proof.
  intros Hp. destruct m as [|m].
  - rewrite cdf_upto_step_zero.
    pose proof (cdf_upto_nonneg n p 0 Hp). nra.
  - rewrite cdf_upto_step.
    pose proof (cdf_upto_succ_le n p m Hp). nra.
Qed.

Lemma cdf_range (n : nat) (p : Q) (k : Z) :
  0 <= p <= 1 -> 0 <= cdf n p k <= 1.
Proof.
  intros Hp. unfold cdf. destruct (k <? 0)%Z; [lra|].
  split; [apply cdf_upto_nonneg|apply cdf_upto_le_1]; exact Hp.
Qed.

Lemma sf_range (n : nat) (p : Q) (k : Z) :
  0 <= p <= 1 -> 0 <= sf n p k <= 1.
Proof. intros Hp. unfold sf. pose proof (cdf_range n p k Hp). lra. Qed.

(* ------------------------------------------------------------------ *)
(** ** The percent point function *)

Lemma ppf_search_spec (n : nat) (p q : Q) (fuel k : nat) :
  let r := ppf_search n p q fuel k in
  (k <= r <= k + fuel)%nat /\
  (forall j, (k <= j < r)%nat -> cdf_upto n p j < q) /\
  ((r < k + fuel)%nat -> q <= cdf_upto n p r).
Proof.
  revert k. induction fuel as [|f IH]; intros k; cbn [ppf_search]; cbv zeta.
  - split; [lia|]. split; intros; lia.
  - destruct (Qle_bool q (cdf_upto n p k)) eqn:B.
    + apply Qle_bool_iff in B.
      split; [lia|]. split; [intros; lia|intros _; exact B].
    + specialize (IH (S k)). cbv zeta in IH. destruct IH as [Hr [Hlt Hge]].
      split; [lia|]. split.
      * intros j Hj. destruct (Nat.eq_dec j k) as [->|Hne].
        -- apply Qnot_le_lt. intros C. apply Qle_bool_iff in C. congruence.
        -- apply Hlt. lia.
      * intros Hr'. apply Hge. lia.
Qed.

Lemma ppf_le_n (n : nat) (p q : Q) : (ppf n p q <= n)%nat.
Proof. pose proof (ppf_search_spec n p q n 0). cbv zeta in H. unfold ppf. lia. Qed.

Lemma ppf_below (n : nat) (p q : Q) (j : nat) :
  (j < ppf n p q)%nat -> cdf_upto n p j < q.
Proof.
  intros H. pose proof (ppf_search_spec n p q n 0) as S. cbv zeta in S.
  apply S. unfold ppf in H. lia.
Qed.

Lemma ppf_reaches (n : nat) (p q : Q) :
  q <= 1 -> q <= cdf_upto n p (ppf n p q).
Proof.
  intros Hq. pose proof (ppf_search_spec n p q n 0) as S. cbv zeta in S.
  fold (ppf n p q) in S. destruct S as [Hr [_ Hge]].
  destruct (Nat.eq_dec (ppf n p q) n) as [E|Hne].
  - rewrite E, cdf_upto_full by lia. exact Hq.
  - apply Hge. lia.
Qed.

Lemma ppf_least (n : nat) (p q : Q) (j : nat) :
  q <= cdf_upto n p j -> (ppf n p q <= j)%nat.
Proof.
  intros H. destruct (Nat.le_gt_cases (ppf n p q) j) as [L|G]; [exact L|].
  apply ppf_below in G. lra.
Qed.

Lemma ppf_mono_level (n : nat) (p q1 q2 : Q) :
  q1 <= q2 -> q2 <= 1 -> (ppf n p q1 <= ppf n p q2)%nat.
Proof.
  intros H12 H2. apply ppf_least.
  pose proof (ppf_reaches n p q2 H2). lra.
Qed.

Lemma ppf_more_trials (n : nat) (p q : Q) :
  0 <= p <= 1 -> q <= 1 -> (ppf n p q <= ppf (S n) p q)%nat.
Proof.
  intros Hp Hq. apply ppf_least.
  pose proof (ppf_reaches (S n) p q Hq).
  pose proof (cdf_upto_more_trials n p (ppf (S n) p q) Hp). lra.
Qed.

Lemma ppf_mono_trials (n n' : nat) (p q : Q) :
  0 <= p <= 1 -> q <= 1 -> (n <= n')%nat -> (ppf n p q <= ppf n' p q)%nat.
Proof.
  intros Hp Hq H. induction H as [|n' H IH]; [lia|].
  pose proof (ppf_more_trials n' p q Hp Hq). lia.
Qed.

(* ------------------------------------------------------------------ *)
(** ** The distribution function on integer arguments *)

Lemma cdf_of_nat (n : nat) (p : Q) (m : nat) : cdf n p (Z.of_nat m) = cdf_upto n p m.
Proof.
  unfold cdf. destruct (Z.of_nat m <? 0)%Z eqn:B.
  - apply Z.ltb_lt in B. lia.
  - rewrite Nat2Z.id. reflexivity.
Qed.

Lemma cdf_negative (n : nat) (p : Q) (k : Z) : (k < 0)%Z -> cdf n p k = 0.
Proof. intros H. unfold cdf. apply Z.ltb_lt in H. rewrite H. reflexivity. Qed.

Lemma cdf_mono (n : nat) (p : Q) (a b : Z) :
  0 <= p <= 1 -> (a <= b)%Z -> cdf n p a <= cdf n p b.
Proof.
  intros Hp H. destruct (Z.lt_ge_cases a 0) as [Ha|Ha].
  - rewrite (cdf_negative n p a Ha). apply cdf_range, Hp.
  - rewrite <- (Z2Nat.id a), <- (Z2Nat.id b) by lia.
    rewrite !cdf_of_nat. apply cdf_upto_mono; [exact Hp|lia].
Qed.

Lemma cdf_step (n : nat) (p : Q) (k : Z) :
  cdf (S n) p k == p * cdf n p (k - 1) + (1 - p) * cdf n p k.
Proof.
  destruct (Z.lt_trichotomy k 0) as [H|[H|H]].
  - rewrite !cdf_negative by lia. ring.
  - subst k. rewrite (cdf_negative n p (0 - 1)) by lia.
    change 0%Z with (Z.of_nat 0). rewrite !cdf_of_nat, cdf_upto_step_zero. ring.
  - replace k with (Z.of_nat (S (Z.to_nat (k - 1)))) at 1 3 by lia.
    replace (k - 1)%Z with (Z.of_nat (Z.to_nat (k - 1))) at 2 by lia.
    rewrite !cdf_of_nat. apply cdf_upto_step.
Qed.

(** For a fair coin the distribution is symmetric about [n/2]:
    [P(X <= k) + P(X <= n-1-k) = 1]. *)
Lemma cdf_symmetric (n : nat) (p : Q) (k : Z) :
  p == 1 # 2 -> cdf n p k + cdf n p (Z.of_nat n - 1 - k) == 1.
Proof.
  intros Hp. revert k. induction n as [|n IH]; intros k.
  - destruct (Z.lt_ge_cases k 0) as [H|H].
    + rewrite (cdf_negative 0 p k H).
      replace (Z.of_nat 0 - 1 - k)%Z with (Z.of_nat (Z.to_nat (- 1 - k))) by lia.
      rewrite cdf_of_nat, cdf_upto_full by lia. ring.
    + rewrite (cdf_negative 0 p (Z.of_nat 0 - 1 - k)) by lia.
      replace k with (Z.of_nat (Z.to_nat k)) by lia.
      rewrite cdf_of_nat, cdf_upto_full by lia. ring.
  - rewrite (cdf_step n p k), (cdf_step n p (Z.of_nat (S n) - 1 - k)).
    pose proof (IH k) as H1. pose proof (IH (k - 1)%Z) as H2.
    replace (Z.of_nat n - 1 - (k - 1))%Z with (Z.of_nat (S n) - 1 - k)%Z in H2 by lia.
    replace (Z.of_nat (S n) - 1 - k - 1)%Z with (Z.of_nat n - 1 - k)%Z by lia.
    revert H1 H2.
    generalize (cdf n p k) (cdf n p (k - 1)) (cdf n p (Z.of_nat n - 1 - k))
               (cdf n p (Z.of_nat (S n) - 1 - k)).
    intros a b c d H1 H2. rewrite Hp.
    setoid_replace d with (1 - b) by lra.
    setoid_replace c with (1 - a) by lra.
    ring.
Qed.

Lemma fair_probability (p : Q) : p == 1 # 2 -> 0 <= p <= 1.
Proof. intros H. rewrite H. split; lra. Qed.

Lemma cdf_fair_upper_half (n : nat) (p : Q) (k : Z) :
  p == 1 # 2 -> (Z.of_nat n - 1 <= 2 * k)%Z -> 1 # 2 <= cdf n p k.
Proof.
  intros Hp H. pose proof (cdf_symmetric n p k Hp) as S.
  pose proof (cdf_mono n p (Z.of_nat n - 1 - k) k (fair_probability p Hp)) as M.
  assert (L : (Z.of_nat n - 1 - k <= k)%Z) by lia.
  specialize (M L). lra.
Qed.

Lemma cdf_fair_lower_half (n : nat) (p : Q) (k : Z) :
  p == 1 # 2 -> (2 * k <= Z.of_nat n - 1)%Z -> cdf n p k <= 1 # 2.
Proof.
  intros Hp H. pose proof (cdf_symmetric n p k Hp) as S.
  pose proof (cdf_mono n p k (Z.of_nat n - 1 - k) (fair_probability p Hp)) as M.
  assert (L : (k <= Z.of_nat n - 1 - k)%Z) by lia.
  specialize (M L). lra.
Qed.

Lemma ppf_fair_below_mean (n : nat) (p q : Q) :
  p == 1 # 2 -> q <= 1 # 2 -> (2 * Z.of_nat (ppf n p q) <= Z.of_nat n)%Z.
Proof.
  intros Hp Hq.
  assert (L : (ppf n p q <= n / 2)%nat).
  { apply ppf_least. rewrite <- cdf_of_nat.
    pose proof (cdf_fair_upper_half n p (Z.of_nat (n / 2)) Hp) as H.
    assert (A : (Z.of_nat n - 1 <= 2 * Z.of_nat (n / 2))%Z).
    { pose proof (Nat.div_mod_eq n 2). pose proof (Nat.mod_upper_bound n 2). lia. }
    specialize (H A). lra. }
  pose proof (Nat.div_mod_eq n 2). lia.
Qed.

Lemma ppf_fair_above_mean (n : nat) (p q : Q) :
  p == 1 # 2 -> 1 # 2 < q -> q <= 1 -> (Z.of_nat n <= 2 * Z.of_nat (ppf n p q))%Z.
Proof.
  intros Hp Hq Hq1.
  destruct (Z.le_gt_cases (Z.of_nat n) (2 * Z.of_nat (ppf n p q))) as [L|G]; [exact L|].
  pose proof (ppf_reaches n p q Hq1) as R. rewrite <- cdf_of_nat in R.
  pose proof (cdf_fair_lower_half n p (Z.of_nat (ppf n p q)) Hp) as H.
  assert (A : (2 * Z.of_nat (ppf n p q) <= Z.of_nat n - 1)%Z) by lia.
  specialize (H A). lra.
Qed.

(* ------------------------------------------------------------------ *)
(** ** The fair coin: shape of the probabilities *)

Lemma pascal_pos (n k : nat) : (k <= n)%nat -> (0 < pascal n k)%Z.
Proof.
  revert k. induction n as [|n IH]; intros k H.
  - replace k with 0%nat by lia. simpl. lia.
  - destruct k as [|k]; [simpl; lia|].
    change (pascal (S n) (S k)) with (pascal n k + pascal n (S k))%Z.
    pose proof (IH k ltac:(lia)). pose proof (pascal_nonneg n (S k)). lia.
Qed.

Lemma qpow_pos (x : Q) (e : nat) : 0 < x -> 0 < qpow x e.
Proof.
  intros Hx. induction e as [|e IH]; simpl; [lra|].
  apply Qmult_lt_0_compat; assumption.
Qed.

Lemma qpow_add (x : Q) (a b : nat) : qpow x (a + b) == qpow x a * qpow x b.
Proof.
  induction a as [|a IH]; simpl; [ring|]. rewrite IH. ring.
Qed.

(** For the fair coin every outcome sequence has probability [2^-n]. *)
Lemma pmf_fair (n i : nat) :
  (i <= n)%nat -> pmf n (1 # 2) i == inject_Z (pascal n i) * qpow (1 # 2) n.
Proof.
  intros H. rewrite pmf_pascal.
  change (1 - (1 # 2)) with (1 # 2).
  assert (E : qpow (1 # 2) n == qpow (1 # 2) i * qpow (1 # 2) (n - i)).
  { rewrite <- qpow_add. replace (i + (n - i))%nat with n by lia. reflexivity. }
  rewrite E. ring.
Qed.

Lemma pmf_fair_pos (n i : nat) : (i <= n)%nat -> 0 < pmf n (1 # 2) i.
Proof.
  intros H. rewrite pmf_fair by exact H.
  apply Qmult_lt_0_compat.
  - apply inject_Z_pos, pascal_pos, H.
  - apply qpow_pos. lra.
Qed.

Lemma pmf_as_difference (n : nat) (p : Q) (i : nat) :
  pmf n p i == cdf n p (Z.of_nat i) - cdf n p (Z.of_nat i - 1).
Proof.
  destruct i as [|i].
  - rewrite cdf_of_nat, cdf_negative by lia. simpl. ring.
  - replace (Z.of_nat (S i) - 1)%Z with (Z.of_nat i) by lia.
    rewrite !cdf_of_nat. simpl. ring.
Qed.

Lemma pmf_fair_symmetric (n i : nat) :
  (i <= n)%nat -> pmf n (1 # 2) (n - i) == pmf n (1 # 2) i.
Proof.
  intros H. rewrite !pmf_as_difference.
  pose proof (cdf_symmetric n (1 # 2) (Z.of_nat i) ltac:(reflexivity)) as S1.
  pose proof (cdf_symmetric n (1 # 2) (Z.of_nat i - 1) ltac:(reflexivity)) as S2.
  replace (Z.of_nat n - 1 - (Z.of_nat i - 1))%Z with (Z.of_nat (n - i)) in S2 by lia.
  replace (Z.of_nat n - 1 - Z.of_nat i)%Z with (Z.of_nat (n - i) - 1)%Z in S1 by lia.
  lra.
Qed.

(** Below the middle each probability exceeds the previous one by more
    than the tolerance factor, as long as the count stays below [10^7]. *)
Lemma pmf_fair_growth (n i : nat) :
  (2 * S i <= n)%nat -> (Z.of_nat n <= 10000000)%Z ->
  pmf n (1 # 2) i * rerr < pmf n (1 # 2) (S i).
Proof.
  intros H Hn. rewrite !pmf_fair by lia.
  pose proof (pascal_absorb n i) as A.
  pose proof (pascal_pos n i ltac:(lia)) as P.
  set (c := pascal n i) in *. set (c' := pascal n (S i)) in *.
  assert (Hc : (c * (10000001 * Z.of_nat (S i)) < 10000000 * (Z.of_nat (S i) * c'))%Z).
  { rewrite A.
    replace (10000000 * ((Z.of_nat n - Z.of_nat i) * c))%Z
      with (c * (10000000 * (Z.of_nat n - Z.of_nat i)))%Z by ring.
    apply Z.mul_lt_mono_pos_l; [exact P|lia]. }
  assert (Hq : inject_Z c * rerr < inject_Z c').
  { unfold rerr.
    apply (Qmult_lt_r _ _ (10000000 * inject_Z (Z.of_nat (S i)))).
    - pose proof (inject_Z_pos (Z.of_nat (S i)) ltac:(lia)). lra.
    - rewrite Zlt_Qlt in Hc. rewrite !inject_Z_mult in Hc.
      change (inject_Z 10000001) with 10000001 in Hc.
      change (inject_Z 10000000) with 10000000 in Hc.
      setoid_replace (inject_Z c * (1 + (1 # 10000000)) * (10000000 * inject_Z (Z.of_nat (S i))))
        with (inject_Z c * (10000001 * inject_Z (Z.of_nat (S i)))) by ring.
      lra. }
  pose proof (qpow_pos (1 # 2) n ltac:(lra)) as Hp.
  setoid_replace (inject_Z c * qpow (1 # 2) n * rerr)
    with (inject_Z c * rerr * qpow (1 # 2) n) by ring.
  apply Qmult_lt_r; assumption.
Qed.

Lemma rerr_ge_1 (x : Q) : 0 <= x -> x <= x * rerr.
Proof. intros H. unfold rerr. lra. Qed.

Lemma pmf_fair_increasing (n j k : nat) :
  (j <= k)%nat -> (2 * k <= n)%nat -> (Z.of_nat n <= 10000000)%Z ->
  pmf n (1 # 2) j <= pmf n (1 # 2) k.
Proof.
  intros Hjk Hk Hn. induction Hjk as [|k Hjk IH]; [lra|].
  pose proof (pmf_fair_growth n k Hk Hn) as G.
  pose proof (rerr_ge_1 (pmf n (1 # 2) k)
                (Qlt_le_weak _ _ (pmf_fair_pos n k ltac:(lia)))) as R.
  specialize (IH ltac:(lia)). lra.
Qed.

Lemma pmf_fair_beyond (n j k : nat) :
  (k < j)%nat -> (2 * j <= n)%nat -> (Z.of_nat n <= 10000000)%Z ->
  pmf n (1 # 2) k * rerr < pmf n (1 # 2) j.
Proof.
  intros Hkj Hj Hn.
  pose proof (pmf_fair_growth n k ltac:(lia) Hn) as G.
  pose proof (pmf_fair_increasing n (S k) j ltac:(lia) Hj Hn) as I. lra.
Qed.

(* ------------------------------------------------------------------ *)
(** ** The fair coin: [binomtest] against the formula *)

Lemma qmin_cap_compat (x y : Q) : x == y -> Qmin 1 x == Qmin 1 y.
Proof. intros H. rewrite H. reflexivity. Qed.

Lemma half_le (a b : Z) : inject_Z a <= (1 # 2) * inject_Z b <-> (2 * a <= b)%Z.
Proof. unfold Qle, Qmult, inject_Z. cbn [Qnum Qden]. lia. Qed.

Lemma half_ge (a b : Z) : (1 # 2) * inject_Z b <= inject_Z a <-> (b <= 2 * a)%Z.
Proof. unfold Qle, Qmult, inject_Z. cbn [Qnum Qden]. lia. Qed.

Lemma half_eq (a b : Z) : inject_Z a == (1 # 2) * inject_Z b <-> (2 * a = b)%Z.
Proof. unfold Qeq, Qmult, inject_Z. cbn [Qnum Qden]. lia. Qed.

Lemma half_floor (n : nat) :
  let f := Z.to_nat (Qfloor ((1 # 2) * inject_Z (Z.of_nat n))) in
  (2 * f <= n < 2 * f + 2)%nat.
Proof.
  cbv zeta.
  pose proof (Qfloor_le ((1 # 2) * inject_Z (Z.of_nat n))) as L.
  pose proof (Qlt_floor ((1 # 2) * inject_Z (Z.of_nat n))) as U.
  set (z := Qfloor ((1 # 2) * inject_Z (Z.of_nat n))) in *.
  apply half_le in L.
  apply Qlt_not_le in U. rewrite half_le in U.
  lia.
Qed.

Lemma half_ceiling (n : nat) :
  let c := Z.to_nat (Qceiling ((1 # 2) * inject_Z (Z.of_nat n))) in
  (n <= 2 * c < n + 2)%nat.
Proof.
  cbv zeta.
  pose proof (Qle_ceiling ((1 # 2) * inject_Z (Z.of_nat n))) as L.
  pose proof (Qceiling_lt ((1 # 2) * inject_Z (Z.of_nat n))) as U.
  set (z := Qceiling ((1 # 2) * inject_Z (Z.of_nat n))) in *.
  apply half_ge in L.
  apply Qlt_not_le in U. rewrite half_ge in U.
  lia.
Qed.

Lemma count_from_threshold (t lo len : nat) :
  List.length (filter (fun i => t <=? i)%nat (seq lo len)) = (lo + len - Nat.max t lo)%nat.
Proof.
  revert lo. induction len as [|len IH]; intros lo; cbn [seq filter List.length]; [lia|].
  destruct (t <=? lo)%nat eqn:B; cbn [List.length]; rewrite IH.
  - apply Nat.leb_le in B. lia.
  - apply Nat.leb_gt in B. lia.
Qed.

Lemma count_upto_threshold (t lo len : nat) :
  List.length (filter (fun i => i <=? t)%nat (seq lo len)) = (Nat.min (S t) (lo + len) - lo)%nat.
Proof.
  revert lo. induction len as [|len IH]; intros lo; cbn [seq filter List.length]; [lia|].
  destruct (lo <=? t)%nat eqn:B; cbn [List.length]; rewrite IH.
  - apply Nat.leb_le in B. lia.
  - apply Nat.leb_gt in B. lia.
Qed.

(** Which outcomes are at most as probable as [k] (up to the tolerance),
    for [k] in the lower half. *)
Lemma fair_threshold_low (n k i : nat) (b : Q) :
  b == pmf n (1 # 2) k * rerr ->
  (2 * k <= n)%nat -> (2 * i <= n)%nat -> (Z.of_nat n <= 10000000)%Z ->
  Qle_bool (pmf n (1 # 2) i) b = (i <=? k)%nat.
Proof.
  intros Hb Hk Hi Hn. destruct (i <=? k)%nat eqn:B.
  - apply Nat.leb_le in B. apply Qle_bool_iff. rewrite Hb.
    pose proof (pmf_fair_increasing n i k B Hk Hn) as I.
    pose proof (rerr_ge_1 (pmf n (1 # 2) k)
                  (Qlt_le_weak _ _ (pmf_fair_pos n k ltac:(lia)))) as R.
    lra.
  - apply Nat.leb_gt in B.
    destruct (Qle_bool (pmf n (1 # 2) i) b) eqn:C; [|reflexivity].
    apply Qle_bool_iff in C. rewrite Hb in C.
    pose proof (pmf_fair_beyond n i k B Hi Hn). lra.
Qed.

Lemma fair_threshold_high (n k i : nat) (b : Q) :
  b == pmf n (1 # 2) k * rerr ->
  (2 * k <= n)%nat -> (n <= 2 * i)%nat -> (i <= n)%nat ->
  (Z.of_nat n <= 10000000)%Z ->
  Qle_bool (pmf n (1 # 2) i) b = (n - k <=? i)%nat.
Proof.
  intros Hb Hk Hi Hin Hn.
  assert (E : pmf n (1 # 2) i == pmf n (1 # 2) (n - i)).
  { rewrite <- (pmf_fair_symmetric n (n - i)) by lia.
    replace (n - (n - i))%nat with i by lia. reflexivity. }
  rewrite (Qleb_comp _ _ E b b (Qeq_refl b)).
  rewrite (fair_threshold_low n k (n - i) b Hb Hk) by lia.
  destruct (n - i <=? k)%nat eqn:B1, (n - k <=? i)%nat eqn:B2; try reflexivity.
  - apply Nat.leb_le in B1. apply Nat.leb_gt in B2. lia.
  - apply Nat.leb_gt in B1. apply Nat.leb_le in B2. lia.
Qed.

Lemma count_le_fair_high (n k : nat) (b : Q) (lo : nat) :
  b == pmf n (1 # 2) k * rerr ->
  (2 * k < n)%nat -> (n <= 2 * lo < n + 2)%nat ->
  (Z.of_nat n <= 10000000)%Z ->
  count_le n (1 # 2) b lo n = S k.
Proof.
  intros Hb Hk Hlo Hn. unfold count_le.
  rewrite (filter_ext_in _ (fun i => n - k <=? i)%nat).
  - rewrite count_from_threshold. lia.
  - intros i Hi. apply in_seq in Hi.
    apply (fair_threshold_high n k i b Hb); lia.
Qed.

Lemma count_le_fair_low (n k : nat) (b : Q) (hi : nat) :
  b == pmf n (1 # 2) k * rerr ->
  (2 * k < n)%nat -> (2 * hi <= n < 2 * hi + 2)%nat ->
  (Z.of_nat n <= 10000000)%Z ->
  count_le n (1 # 2) b 0 hi = S k.
Proof.
  intros Hb Hk Hhi Hn. unfold count_le.
  rewrite (filter_ext_in _ (fun i => i <=? k)%nat).
  - rewrite count_upto_threshold. lia.
  - intros i Hi. apply in_seq in Hi.
    apply (fair_threshold_low n k i b Hb); lia.
Qed.

(** For the fair coin, and up to [10^7] flips, the two-sided p-value of
    [binomtest] is the value of the specification's formula. *)
Lemma fair_two_sided_pvalue (k n : nat) :
  (k <= n)%nat -> (Z.of_nat n <= 10000000)%Z ->
  two_sided_pvalue k n (1 # 2) == spec_p_value (Z.of_nat k) (Z.of_nat n) (1 # 2).
Proof.
  intros Hk Hn. unfold two_sided_pvalue, spec_p_value. cbv zeta.
  rewrite Nat2Z.id.
  pose proof (half_floor n) as HF. pose proof (half_ceiling n) as HC. cbv zeta in HF, HC.
  set (m := (1 # 2) * inject_Z (Z.of_nat n)) in *.
  assert (Em : inject_Z (Z.of_nat n) * (1 # 2) == m) by (unfold m; ring).
  rewrite (Qleb_comp _ _ (Qeq_refl (inject_Z (Z.of_nat k))) _ _ Em).
  destruct (Nat.lt_trichotomy (2 * k) n) as [Lt|[Eq|Gt]].
  - (* below the mean *)
    assert (B1 : Qeq_bool (inject_Z (Z.of_nat k)) m = false).
    { destruct (Qeq_bool _ m) eqn:B; [|reflexivity].
      apply Qeq_bool_iff in B. apply half_eq in B. lia. }
    assert (B2 : Qle_bool m (inject_Z (Z.of_nat k)) = false).
    { destruct (Qle_bool m _) eqn:B; [|reflexivity].
      apply Qle_bool_iff in B. apply half_ge in B. lia. }
    assert (B3 : Qle_bool (inject_Z (Z.of_nat k)) m = true).
    { apply Qle_bool_iff. apply half_le. lia. }
    rewrite B1, B2, B3. cbn [negb].
    rewrite (count_le_fair_high n k) by (reflexivity || lia).
    apply qmin_cap_compat. unfold sf.
    pose proof (cdf_symmetric n (1 # 2) (Z.of_nat k) ltac:(reflexivity)) as Sy.
    replace (Z.of_nat n - Z.of_nat (S k))%Z with (Z.of_nat n - 1 - Z.of_nat k)%Z by lia.
    lra.
  - (* at the mean *)
    assert (B1 : Qeq_bool (inject_Z (Z.of_nat k)) m = true).
    { apply Qeq_bool_iff. apply half_eq. lia. }
    assert (B3 : Qle_bool (inject_Z (Z.of_nat k)) m = true).
    { apply Qle_bool_iff. apply half_le. lia. }
    rewrite B1, B3.
    pose proof (cdf_fair_upper_half n (1 # 2) (Z.of_nat k) ltac:(reflexivity) ltac:(lia)) as U.
    rewrite !Q.min_l by lra. reflexivity.
  - (* above the mean *)
    assert (B1 : Qeq_bool (inject_Z (Z.of_nat k)) m = false).
    { destruct (Qeq_bool _ m) eqn:B; [|reflexivity].
      apply Qeq_bool_iff in B. apply half_eq in B. lia. }
    assert (B2 : Qle_bool m (inject_Z (Z.of_nat k)) = true).
    { apply Qle_bool_iff. apply half_ge. lia. }
    assert (B3 : Qle_bool (inject_Z (Z.of_nat k)) m = false).
    { destruct (Qle_bool _ m) eqn:B; [|reflexivity].
      apply Qle_bool_iff in B. apply half_le in B. lia. }
    rewrite B1, B2, B3. cbn [negb].
    rewrite (count_le_fair_low n (n - k)).
    + apply qmin_cap_compat. unfold sf.
      pose proof (cdf_symmetric n (1 # 2) (Z.of_nat k - 1) ltac:(reflexivity)) as Sy.
      replace (Z.of_nat n - 1 - (Z.of_nat k - 1))%Z with (Z.of_nat (S (n - k)) - 1)%Z in Sy by lia.
      lra.
    + rewrite (pmf_fair_symmetric n k Hk). reflexivity.
    + lia.
    + lia.
    + exact Hn.
Qed.

(* ------------------------------------------------------------------ *)
(** ** [perform_binomial_test] on valid input *)

Lemma argcheck_valid (n : Z) (p : Q) :
  (0 <= n)%Z -> 0 <= p <= 1 -> argcheck n p = true.
Proof.
  intros Hn [H0 H1]. unfold argcheck.
  apply Z.leb_le in Hn. apply Qle_bool_iff in H0, H1.
  rewrite Hn, H0, H1. reflexivity.
Qed.

Lemma binomtest_valid (k n : Z) (p : Q) :
  (1 <= n)%Z -> (0 <= k <= n)%Z -> 0 <= p <= 1 ->
  binomtest k n p = Ok (Fin (two_sided_pvalue (Z.to_nat k) (Z.to_nat n) p)).
Proof.
  intros Hn [Hk0 Hkn] [H0 H1]. unfold binomtest.
  apply Z.ltb_ge in Hk0, Hkn. apply Z.ltb_ge in Hn.
  apply Qle_bool_iff in H0, H1.
  rewrite Hk0, Hn, Hkn, H0, H1. reflexivity.
Qed.

Lemma binomtest_no_trials (k : Z) (p : Q) : binomtest k 0 p = Raise ValueError.
Proof. unfold binomtest. destruct (k <? 0)%Z; reflexivity. Qed.

Lemma pymin_one (a : Q) : exists x, pymin (Fin a) (Fin 1) = Fin x /\ x == Qmin 1 a.
Proof.
  unfold pymin, flt. destruct (Qle_bool a 1) eqn:B; cbn [negb].
  - exists a. split; [reflexivity|].
    apply Qle_bool_iff in B. symmetry. apply Q.min_r, B.
  - exists 1. split; [reflexivity|].
    symmetry. apply Q.min_l. apply Qlt_le_weak, Qnot_le_lt.
    intros C. apply Qle_bool_iff in C. congruence.
Qed.

Lemma manual_p_value_formula (k n : Z) (p : Q) :
  (0 <= n)%Z -> 0 <= p <= 1 ->
  exists x, manual_p_value k n p = Fin x /\ x == spec_p_value k n p.
Proof.
  intros Hn Hp. unfold manual_p_value, spec_p_value, binom_cdf.
  rewrite (argcheck_valid n p Hn Hp).
  destruct (Qle_bool (inject_Z k) (inject_Z n * p)); cbn [fmul fsub]; apply pymin_one.
Qed.

Lemma perform_binomial_test_valid (v : bool) (k n : Z) (p : Q) :
  (1 <= n)%Z -> (0 <= k <= n)%Z -> 0 <= p <= 1 ->
  perform_binomial_test v k n p =
  Ok (finish_test n p
        (if v then Fin (two_sided_pvalue (Z.to_nat k) (Z.to_nat n) p)
         else manual_p_value k n p)).
Proof.
  intros Hn Hk Hp. unfold perform_binomial_test, stats_binomtest.
  destruct v; [|reflexivity].
  rewrite binomtest_valid by assumption. reflexivity.
Qed.

Lemma two_sided_pvalue_range (k n : nat) (p : Q) :
  0 <= p <= 1 -> 0 <= two_sided_pvalue k n p <= 1.
Proof.
  intros Hp. unfold two_sided_pvalue. cbv zeta.
  split; [|apply Q.le_min_l].
  apply Q.min_glb; [lra|].
  destruct (Qeq_bool _ _); [lra|].
  destruct (negb _).
  - pose proof (cdf_range n p (Z.of_nat k) Hp).
    pose proof (sf_range n p
      (Z.of_nat n - Z.of_nat (count_le n p (pmf n p k * rerr)
                                (Z.to_nat (Qceiling (p * inject_Z (Z.of_nat n)))) n)) Hp).
    lra.
  - pose proof (sf_range n p (Z.of_nat k - 1) Hp).
    pose proof (cdf_range n p
      (Z.of_nat (count_le n p (pmf n p k * rerr) 0
                   (Z.to_nat (Qfloor (p * inject_Z (Z.of_nat n))))) - 1) Hp).
    lra.
Qed.

Lemma spec_p_value_range (k n : Z) (p : Q) :
  0 <= p <= 1 -> 0 <= spec_p_value k n p <= 1.
Proof.
  intros Hp. unfold spec_p_value. cbv zeta.
  destruct (Qle_bool _ _); (split; [|apply Q.le_min_l]); apply Q.min_glb; try lra.
  - pose proof (cdf_range (Z.to_nat n) p k Hp). lra.
  - pose proof (cdf_range (Z.to_nat n) p (k - 1) Hp). lra.
Qed.

Lemma is_fair_threshold (n : Z) (p x : Q) :
  is_fair (finish_test n p (Fin x)) = true <-> 5 # 100 < x.
Proof.
  unfold finish_test, fgt, flt. cbn [is_fair]. split.
  - intros H. apply Qnot_le_lt. intros C. apply Qle_bool_iff in C.
    rewrite C in H. discriminate H.
  - intros H. destruct (Qle_bool x (5 # 100)) eqn:B; [|reflexivity].
    apply Qle_bool_iff in B. lra.
Qed.

(* ------------------------------------------------------------------ *)
(** ** p-value and verdict: the claims *)

(** C3. On valid input (total >= 1, 0 <= heads <= total, probability in
    [0, 1]) and with either SciPy generation, the test returns, its p-value
    lies in [0, 1], and the verdict is true exactly when the p-value is
    strictly greater than 0.05. *)
Theorem perform_binomial_test_verdict (v : bool) (k n : Z) (p : Q) :
  (1 <= n)%Z -> (0 <= k <= n)%Z -> 0 <= p <= 1 ->
  exists r x,
    perform_binomial_test v k n p = Ok r /\
    p_value r = Fin x /\
    0 <= x <= 1 /\
    (is_fair r = true <-> 5 # 100 < x).
Proof.
  intros Hn Hk Hp. rewrite perform_binomial_test_valid by assumption.
  destruct v.
  - eexists. eexists. split; [reflexivity|]. split; [reflexivity|].
    split; [apply two_sided_pvalue_range, Hp|apply is_fair_threshold].
  - destruct (manual_p_value_formula k n p) as [x [E Hx]]; [lia|exact Hp|].
    rewrite E. exists (finish_test n p (Fin x)), x.
    split; [reflexivity|]. split; [reflexivity|].
    split; [|apply is_fair_threshold].
    rewrite Hx. apply spec_p_value_range, Hp.
Qed.

Lemma perform_binomial_test_verdict_witness :
  exists r x,
    perform_binomial_test true 0 10 (1 # 2) = Ok r /\
    p_value r = Fin x /\
    0 <= x <= 1 /\
    (is_fair r = true <-> 5 # 100 < x).
Proof.
  apply (perform_binomial_test_verdict true 0 10 (1 # 2)); [lia|lia|lra].
Defined.

(** C1, as stated, fails when SciPy provides [binomtest]: for 0 heads in
    10 flips with expected probability 3/10 the returned p-value is not the
    one of the formula (and the verdicts differ: the formula gives
    0.0565 > 0.05, the test returns 0.0388). *)
Lemma binomtest_p_value_differs_from_formula :
  exists r x,
    perform_binomial_test true 0 10 (3 # 10) = Ok r /\
    p_value r = Fin x /\
    ~ x == spec_p_value 0 10 (3 # 10) /\
    is_fair r = false /\
    5 # 100 < spec_p_value 0 10 (3 # 10).
Proof.
  eexists. eexists. split; [reflexivity|]. split; [reflexivity|].
  split; [|split].
  - intros E. vm_compute in E. discriminate E.
  - vm_compute. reflexivity.
  - vm_compute. reflexivity.
Qed.

(** C1, amended. For total >= 1, 0 <= heads <= total and probability in
    [0, 1]: when SciPy has no [binomtest] (the AttributeError branch) the
    returned p-value is the stated formula; when SciPy provides [binomtest]
    the returned p-value is the one [binomtest] reports, and for the fair
    coin (probability 1/2, the value the application passes) with at most
    10^7 flips that is again the value of the formula. *)
Theorem perform_binomial_test_p_value (k n : Z) (p : Q) :
  (1 <= n)%Z -> (0 <= k <= n)%Z -> 0 <= p <= 1 ->
  (exists r x,
     perform_binomial_test false k n p = Ok r /\
     p_value r = Fin x /\ x == spec_p_value k n p) /\
  (exists r,
     perform_binomial_test true k n p = Ok r /\
     Ok (p_value r) = binomtest k n p) /\
  (p = 1 # 2 -> (n <= 10000000)%Z ->
   exists r x,
     perform_binomial_test true k n p = Ok r /\
     p_value r = Fin x /\ x == spec_p_value k n p).
Proof.
  intros Hn Hk Hp. split; [|split].
  - rewrite perform_binomial_test_valid by assumption.
    destruct (manual_p_value_formula k n p) as [x [E Hx]]; [lia|exact Hp|].
    rewrite E. exists (finish_test n p (Fin x)), x.
    split; [reflexivity|]. split; [reflexivity|exact Hx].
  - rewrite perform_binomial_test_valid by assumption.
    eexists. split; [reflexivity|].
    rewrite binomtest_valid by assumption. reflexivity.
  - intros -> Hbig. rewrite perform_binomial_test_valid by assumption.
    eexists. eexists. split; [reflexivity|]. split; [reflexivity|].
    cbn [p_value finish_test].
    rewrite fair_two_sided_pvalue by lia.
    rewrite !Z2Nat.id by lia. reflexivity.
Qed.

Lemma perform_binomial_test_p_value_witness :
  (exists r x,
     perform_binomial_test false 0 10 (1 # 2) = Ok r /\
     p_value r = Fin x /\ x == spec_p_value 0 10 (1 # 2)) /\
  (exists r,
     perform_binomial_test true 0 10 (1 # 2) = Ok r /\
     Ok (p_value r) = binomtest 0 10 (1 # 2)) /\
  (1 # 2 = 1 # 2 -> (10 <= 10000000)%Z ->
   exists r x,
     perform_binomial_test true 0 10 (1 # 2) = Ok r /\
     p_value r = Fin x /\ x == spec_p_value 0 10 (1 # 2)).
Proof.
  apply (perform_binomial_test_p_value 0 10 (1 # 2)); [lia|lia|lra].
Defined.

(** The specification's worked example: 0 heads in 10 fair flips give
    p-value 2 * 0.5^10 = 1/512 on both paths, and the verdict "not fair". *)
Lemma perform_binomial_test_example_0_of_10 (v : bool) :
  exists r x,
    perform_binomial_test v 0 10 (1 # 2) = Ok r /\
    p_value r = Fin x /\ x == 1 # 512 /\ is_fair r = false.
Proof.
  destruct v; eexists; eexists; (split; [reflexivity|]);
    (split; [reflexivity|]); split; vm_compute; reflexivity.
Qed.

(** The specification's worked example: 50 heads in 100 fair flips give
    p-value 1 and the verdict "fair". *)
Lemma perform_binomial_test_example_50_of_100 (v : bool) :
  exists r,
    perform_binomial_test v 50 100 (1 # 2) = Ok r /\
    p_value r = Fin 1 /\ is_fair r = true.
Proof.
  rewrite perform_binomial_test_valid by (lia || lra).
  eexists. split; [reflexivity|]. cbn [p_value is_fair finish_test].
  destruct v; split; vm_compute; reflexivity.
Qed.

(** The specification's worked example: 90 heads in 100 fair flips give a
    p-value far below 0.05 and the verdict "not fair". *)
Lemma perform_binomial_test_example_90_of_100 (v : bool) :
  exists r x,
    perform_binomial_test v 90 100 (1 # 2) = Ok r /\
    p_value r = Fin x /\ x < 1 # 1000000 /\ is_fair r = false.
Proof.
  rewrite perform_binomial_test_valid by (lia || lra).
  destruct v.
  - eexists. eexists. split; [reflexivity|]. cbn [p_value is_fair finish_test].
    split; [reflexivity|]. split; vm_compute; reflexivity.
  - destruct (manual_p_value_formula 90 100 (1 # 2)) as [x [E Hx]]; [lia|lra|].
    rewrite E. eexists. exists x. split; [reflexivity|].
    cbn [p_value is_fair finish_test]. split; [reflexivity|].
    assert (L : x < 1 # 1000000) by (rewrite Hx; vm_compute; reflexivity).
    split; [exact L|].
    unfold fgt, flt. destruct (Qle_bool x (5 # 100)) eqn:B; [reflexivity|].
    exfalso. assert (C : x <= 5 # 100) by lra.
    apply Qle_bool_iff in C. congruence.
Qed.

(** The [binomtest] branch on total = 0: whatever the head count and the
    probability, the ValueError of [binomtest] is let through. *)
Lemma binomtest_branch_rejects_no_trials (k : Z) (p : Q) :
  perform_binomial_test true k 0 p = Raise ValueError.
Proof.
  unfold perform_binomial_test, stats_binomtest.
  rewrite binomtest_no_trials. reflexivity.
Qed.

(** C7. The manual branch misses the check that the [binomtest] branch
    makes: for 0 heads in 0 flips the [binomtest] branch fails with a
    ValueError, while the AttributeError branch returns a result, with
    p-value 1 and the verdict "fair". *)
Theorem fallback_accepts_no_trials :
  perform_binomial_test true 0 0 (1 # 2) = Raise ValueError /\
  exists r,
    perform_binomial_test false 0 0 (1 # 2) = Ok r /\
    p_value r = Fin 1 /\ is_fair r = true.
Proof.
  split; [apply binomtest_branch_rejects_no_trials|].
  eexists. split; [reflexivity|]. split; vm_compute; reflexivity.
Qed.

(* ------------------------------------------------------------------ *)
(** ** The confidence interval: the claims *)

Lemma confidence_interval_valid (v : bool) (k n : Z) (p : Q) :
  (1 <= n)%Z -> (0 <= k <= n)%Z -> 0 <= p <= 1 ->
  exists r,
    perform_binomial_test v k n p = Ok r /\
    confidence_interval r =
    (Fin (inject_Z (Z.of_nat (ppf (Z.to_nat n) p ((1 - (95 # 100)) / 2)))),
     Fin (inject_Z (Z.of_nat (ppf (Z.to_nat n) p ((1 + (95 # 100)) / 2))))).
Proof.
  intros Hn Hk Hp. rewrite perform_binomial_test_valid by assumption.
  eexists. split; [reflexivity|].
  unfold finish_test, binom_interval. cbn [confidence_interval].
  rewrite argcheck_valid by (lia || exact Hp). reflexivity.
Qed.

(** C2, as stated, fails: for 5 fair flips the returned interval is
    [0, 5], although the narrower [0, 4] already holds 31/32 > 95% of the
    mass. *)
Lemma confidence_interval_not_smallest :
  exists r,
    perform_binomial_test true 2 5 (1 # 2) = Ok r /\
    confidence_interval r = (Fin 0, Fin 5) /\
    ~ spec_smallest_interval 5 (1 # 2) 0 5.
Proof.
  eexists. split; [reflexivity|]. split; [vm_compute; reflexivity|].
  intros [_ [_ [_ H]]].
  specialize (H 0%Z 4%Z).
  assert (C : (5 - 0 <= 4 - 0)%Z).
  { apply H; [lia|simpl; lia|]. vm_compute. discriminate. }
  lia.
Qed.

(** C2, amended. For total >= 1, 0 <= heads <= total and probability in
    [0, 1] the returned interval is the equal-tailed one: ciLow is the least
    count whose distribution function reaches 0.025, ciHigh the least count
    whose distribution function reaches 0.975; it lies within [0, total],
    ciLow <= ciHigh, and it holds at least 95% of the mass. *)
Theorem confidence_interval_equal_tailed (v : bool) (k n : Z) (p : Q) :
  (1 <= n)%Z -> (0 <= k <= n)%Z -> 0 <= p <= 1 ->
  exists r (lo hi : nat),
    perform_binomial_test v k n p = Ok r /\
    confidence_interval r =
      (Fin (inject_Z (Z.of_nat lo)), Fin (inject_Z (Z.of_nat hi))) /\
    (lo <= hi <= Z.to_nat n)%nat /\
    1 # 40 <= cdf (Z.to_nat n) p (Z.of_nat lo) /\
    (forall j, (j < Z.of_nat lo)%Z -> cdf (Z.to_nat n) p j < 1 # 40) /\
    39 # 40 <= cdf (Z.to_nat n) p (Z.of_nat hi) /\
    (forall j, (j < Z.of_nat hi)%Z -> cdf (Z.to_nat n) p j < 39 # 40) /\
    95 # 100 <= interval_mass (Z.to_nat n) p (Z.of_nat lo) (Z.of_nat hi).
Proof.
  intros Hn Hk Hp.
  destruct (confidence_interval_valid v k n p Hn Hk Hp) as [r [E C]].
  set (N := Z.to_nat n) in *.
  set (q1 := (1 - (95 # 100)) / 2) in *.
  set (q2 := (1 + (95 # 100)) / 2) in *.
  assert (Hq1 : q1 == 1 # 40) by reflexivity.
  assert (Hq2 : q2 == 39 # 40) by reflexivity.
  exists r, (ppf N p q1), (ppf N p q2).
  assert (Below : forall q j, 0 < q ->
            (j < Z.of_nat (ppf N p q))%Z -> cdf N p j < q).
  { intros q j Hq Hj. destruct (Z.lt_ge_cases j 0) as [J|J].
    - rewrite cdf_negative by exact J. exact Hq.
    - rewrite <- (Z2Nat.id j) by exact J. rewrite cdf_of_nat.
      apply ppf_below. lia. }
  assert (L1 : 1 # 40 <= cdf N p (Z.of_nat (ppf N p q1))).
  { rewrite cdf_of_nat, <- Hq1. apply ppf_reaches. rewrite Hq1. lra. }
  assert (L2 : 39 # 40 <= cdf N p (Z.of_nat (ppf N p q2))).
  { rewrite cdf_of_nat, <- Hq2. apply ppf_reaches. rewrite Hq2. lra. }
  assert (B1 : forall j, (j < Z.of_nat (ppf N p q1))%Z -> cdf N p j < 1 # 40).
  { intros j Hj. rewrite <- Hq1. apply Below; [rewrite Hq1; lra|exact Hj]. }
  assert (B2 : forall j, (j < Z.of_nat (ppf N p q2))%Z -> cdf N p j < 39 # 40).
  { intros j Hj. rewrite <- Hq2. apply Below; [rewrite Hq2; lra|exact Hj]. }
  split; [exact E|]. split; [exact C|].
  split; [split; [apply ppf_mono_level; rewrite ?Hq1, ?Hq2; lra|apply ppf_le_n]|].
  split; [exact L1|]. split; [exact B1|]. split; [exact L2|]. split; [exact B2|].
  unfold interval_mass.
  pose proof (B1 (Z.of_nat (ppf N p q1) - 1)%Z ltac:(lia)). lra.
Qed.

Lemma confidence_interval_equal_tailed_witness :
  exists r (lo hi : nat),
    perform_binomial_test true 2 5 (1 # 2) = Ok r /\
    confidence_interval r =
      (Fin (inject_Z (Z.of_nat lo)), Fin (inject_Z (Z.of_nat hi))) /\
    (lo <= hi <= Z.to_nat 5)%nat /\
    1 # 40 <= cdf (Z.to_nat 5) (1 # 2) (Z.of_nat lo) /\
    (forall j, (j < Z.of_nat lo)%Z -> cdf (Z.to_nat 5) (1 # 2) j < 1 # 40) /\
    39 # 40 <= cdf (Z.to_nat 5) (1 # 2) (Z.of_nat hi) /\
    (forall j, (j < Z.of_nat hi)%Z -> cdf (Z.to_nat 5) (1 # 2) j < 39 # 40) /\
    95 # 100 <= interval_mass (Z.to_nat 5) (1 # 2) (Z.of_nat lo) (Z.of_nat hi).
Proof.
  apply (confidence_interval_equal_tailed true 2 5 (1 # 2)); [lia|lia|lra].
Defined.

(** C9, as stated, fails: the interval need not contain the mean.  With
    one flip and expected probability 99/100 the interval is [1, 1] and the
    mean is 0.99. *)
Lemma confidence_interval_misses_mean :
  exists r,
    perform_binomial_test true 1 1 (99 # 100) = Ok r /\
    confidence_interval r = (Fin 1, Fin 1) /\
    ~ (1 <= inject_Z 1 * (99 # 100)).
Proof.
  eexists. split; [reflexivity|]. split; [vm_compute; reflexivity|].
  vm_compute. intros H. apply H. reflexivity.
Qed.

(** C9, amended. For a fixed probability in [0, 1] both bounds of the
    interval are non-decreasing in the total; for the fair coin
    (probability 1/2, the value the application passes) the interval
    contains the mean total * p. *)
Theorem confidence_interval_monotone (v : bool) (k n k' n' : Z) (p : Q) :
  0 <= p <= 1 ->
  (1 <= n <= n')%Z -> (0 <= k <= n)%Z -> (0 <= k' <= n')%Z ->
  exists r r' (lo hi lo' hi' : Z),
    perform_binomial_test v k n p = Ok r /\
    perform_binomial_test v k' n' p = Ok r' /\
    confidence_interval r = (Fin (inject_Z lo), Fin (inject_Z hi)) /\
    confidence_interval r' = (Fin (inject_Z lo'), Fin (inject_Z hi')) /\
    (lo <= lo')%Z /\ (hi <= hi')%Z /\
    (p == 1 # 2 -> inject_Z lo <= inject_Z n * p /\ inject_Z n * p <= inject_Z hi).
Proof.
  intros Hp Hn Hk Hk'.
  destruct (confidence_interval_valid v k n p) as [r [E C]]; [lia|exact Hk|exact Hp|].
  destruct (confidence_interval_valid v k' n' p) as [r' [E' C']]; [lia|exact Hk'|exact Hp|].
  set (q1 := (1 - (95 # 100)) / 2) in *.
  set (q2 := (1 + (95 # 100)) / 2) in *.
  assert (Hq1 : q1 == 1 # 40) by reflexivity.
  assert (Hq2 : q2 == 39 # 40) by reflexivity.
  exists r, r'. do 4 eexists.
  split; [exact E|]. split; [exact E'|]. split; [exact C|]. split; [exact C'|].
  assert (M : (Z.to_nat n <= Z.to_nat n')%nat) by lia.
  split; [|split].
  - apply inj_le, ppf_mono_trials; [exact Hp|rewrite Hq1; lra|exact M].
  - apply inj_le, ppf_mono_trials; [exact Hp|rewrite Hq2; lra|exact M].
  - intros Hf.
    pose proof (ppf_fair_below_mean (Z.to_nat n) p q1 Hf ltac:(rewrite Hq1; lra)) as A.
    pose proof (ppf_fair_above_mean (Z.to_nat n) p q2 Hf
                  ltac:(rewrite Hq2; lra) ltac:(rewrite Hq2; lra)) as B.
    rewrite Z2Nat.id in A, B by lia.
    rewrite Zle_Qle, inject_Z_mult in A, B.
    change (inject_Z 2) with 2 in A, B.
    assert (Mean : inject_Z n * p == inject_Z n * (1 # 2)) by (rewrite Hf; reflexivity).
    split; lra.
Qed.

Lemma confidence_interval_monotone_witness :
  exists r r' (lo hi lo' hi' : Z),
    perform_binomial_test true 2 5 (1 # 2) = Ok r /\
    perform_binomial_test true 4 8 (1 # 2) = Ok r' /\
    confidence_interval r = (Fin (inject_Z lo), Fin (inject_Z hi)) /\
    confidence_interval r' = (Fin (inject_Z lo'), Fin (inject_Z hi')) /\
    (lo <= lo')%Z /\ (hi <= hi')%Z /\
    (1 # 2 == 1 # 2 ->
     inject_Z lo <= inject_Z 5 * (1 # 2) /\ inject_Z 5 * (1 # 2) <= inject_Z hi).
Proof.
  apply (confidence_interval_monotone true 2 5 4 8 (1 # 2)); [lra|lia|lia|lia].
Defined.

(* ------------------------------------------------------------------ *)
(** ** [create_cumulative_chart] *)

Lemma acum_loop_snoc (l : list string) (x : string) :
  acum_loop (l ++ [x]) = acum_step (acum_loop l) x.
Proof. unfold acum_loop. rewrite fold_left_app. reflexivity. Qed.

Lemma count_occ_snoc (l : list string) (x y : string) :
  count_occ string_dec (l ++ [x]) y =
  (count_occ string_dec l y + if string_dec x y then 1 else 0)%nat.
Proof.
  rewrite count_occ_app. simpl. destruct (string_dec x y); lia.
Qed.

(** What the loop has computed after the whole list. *)
Lemma acum_loop_spec (l : list string) :
  let st := acum_loop l in
  caras_count st = py_count l Cara /\
  cruces_count st = (py_len l - py_count l Cara)%Z /\
  List.length (caras_acum st) = List.length l /\
  List.length (cruces_acum st) = List.length l /\
  forall i, (i < List.length l)%nat ->
    nth_error (caras_acum st) i = Some (py_count (firstn (S i) l) Cara) /\
    nth_error (cruces_acum st) i =
      Some (Z.of_nat (S i) - py_count (firstn (S i) l) Cara)%Z.
Proof.
  induction l as [|x l IH] using rev_ind; cbv zeta.
  - cbn. do 4 (split; [reflexivity|]). intros i Hi. inversion Hi.
  - cbv zeta in IH. destruct IH as [Hc [Hz [Lc [Lz Hn]]]].
    rewrite acum_loop_snoc. unfold acum_step. cbn [caras_acum cruces_acum caras_count cruces_count].
    rewrite Hc, Hz. unfold py_count, py_len in *.
    rewrite !length_app, Lc, Lz. cbn [List.length].
    assert (Ecount : (if string_dec x Cara
                      then Z.of_nat (count_occ string_dec l Cara) + 1
                      else Z.of_nat (count_occ string_dec l Cara))%Z
                     = Z.of_nat (count_occ string_dec (l ++ [x]) Cara)).
    { rewrite count_occ_snoc. destruct (string_dec x Cara); lia. }
    assert (Erest : (if string_dec x Cara
                     then Z.of_nat (List.length l) - Z.of_nat (count_occ string_dec l Cara)
                     else Z.of_nat (List.length l) - Z.of_nat (count_occ string_dec l Cara) + 1)%Z
                    = (Z.of_nat (List.length l + 1) -
                       Z.of_nat (count_occ string_dec (l ++ [x]) Cara))%Z).
    { rewrite count_occ_snoc. destruct (string_dec x Cara); lia. }
    rewrite Ecount, Erest.
    split; [reflexivity|]. split; [reflexivity|].
    split; [reflexivity|]. split; [reflexivity|].
    intros i Hi.
    destruct (Nat.eq_dec i (List.length l)) as [->|Hne].
    + rewrite !nth_error_app2 by lia. rewrite Lc, Lz, Nat.sub_diag. cbn [nth_error].
      rewrite firstn_all2 by (rewrite length_app; cbn; lia).
      split; [reflexivity|]. f_equal. lia.
    + assert (Hi' : (i < List.length l)%nat) by lia.
      rewrite !nth_error_app1 by lia.
      rewrite firstn_app.
      replace (S i - List.length l)%nat with 0%nat by lia.
      cbn [firstn]. rewrite app_nil_r. apply Hn, Hi'.
Qed.

Lemma py_range_from_1 (n : nat) (i : nat) :
  (i < n)%nat -> nth_error (py_range 1 (Z.of_nat n + 1)) i = Some (Z.of_nat (S i)).
Proof.
  intros H. unfold py_range.
  replace (Z.to_nat (Z.of_nat n + 1 - 1)) with n by lia.
  rewrite nth_error_map, nth_error_seq.
  apply Nat.ltb_lt in H. rewrite H. cbn [option_map]. f_equal. lia.
Qed.

Lemma py_range_length (n : nat) : List.length (py_range 1 (Z.of_nat n + 1)) = n.
Proof.
  unfold py_range. rewrite length_map, length_seq. lia.
Qed.

(** The points of the cumulative chart. *)
Lemma cumulative_chart_points (results : list string) :
  let fig := create_cumulative_chart results in
  let n := List.length results in
  List.length (data fig) = 2%nat /\
  List.length (axis fig 0) = n /\ List.length (axis fig 1) = n /\
  List.length (series fig 0) = n /\ List.length (series fig 1) = n /\
  forall i, (i < n)%nat ->
    nth_error (axis fig 0) i = Some (Z.of_nat (S i)) /\
    nth_error (axis fig 1) i = Some (Z.of_nat (S i)) /\
    nth_error (series fig 0) i = Some (py_count (firstn (S i) results) Cara) /\
    nth_error (series fig 1) i =
      Some (Z.of_nat (S i) - py_count (firstn (S i) results) Cara)%Z.
Proof.
  cbv zeta. unfold create_cumulative_chart, series, axis. cbn [data nth_error trace_y trace_x].
  pose proof (acum_loop_spec results) as S. cbv zeta in S.
  destruct S as [_ [_ [Lc [Lz Hn]]]]. unfold py_len.
  split; [reflexivity|].
  split; [apply py_range_length|]. split; [apply py_range_length|].
  split; [exact Lc|]. split; [exact Lz|].
  intros i Hi. specialize (Hn i Hi). destruct Hn as [H1 H2].
  split; [apply py_range_from_1, Hi|]. split; [apply py_range_from_1, Hi|].
  split; assumption.
Qed.

Lemma prefix_count_bounds (l : list string) (i : nat) :
  (i < List.length l)%nat ->
  (0 <= py_count (firstn (S i) l) Cara <= Z.of_nat (S i))%Z.
Proof.
  intros H. unfold py_count.
  pose proof (count_occ_bound string_dec Cara (firstn (S i) l)) as B.
  rewrite length_firstn in B. lia.
Qed.

Lemma firstn_succ_snoc (l : list string) (i : nat) (x : string) :
  nth_error l i = Some x -> firstn (S i) l = firstn i l ++ [x].
Proof.
  revert i. induction l as [|y l IH]; intros i H.
  - destruct i; discriminate H.
  - destruct i as [|i].
    + cbn in H. injection H as ->. reflexivity.
    + cbn [nth_error] in H. cbn [firstn app]. f_equal. apply (IH i H).
Qed.

Lemma nth_error_last (l : list Z) (v : Z) :
  nth_error l (List.length l - 1) = Some v -> last l 0%Z = v.
Proof.
  intros H. destruct l as [|a l] using rev_ind; [discriminate H|].
  rewrite last_last. rewrite length_app in H. cbn [List.length] in H.
  rewrite nth_error_app2 in H by lia.
  replace (List.length l + 1 - 1 - List.length l)%nat with 0%nat in H by lia.
  cbn in H. congruence.
Qed.

(** X1. The cumulative chart has two line series over the flip numbers
    1..n, named "Caras" and "Cruces"; at flip i+1 the series "Caras" holds
    the number of 'Cara' among the first i+1 results and the series "Cruces"
    holds the rest of them, whatever the elements of the list are. *)
Theorem cumulative_chart_prefix_counts (results : list string) :
  let n := List.length results in
  exists xs caras_y cruces_y,
    data (create_cumulative_chart results) =
      [Scatter xs caras_y "Caras"; Scatter xs cruces_y "Cruces"] /\
    List.length xs = n /\ List.length caras_y = n /\ List.length cruces_y = n /\
    forall i, (i < n)%nat ->
      nth_error xs i = Some (Z.of_nat (S i)) /\
      nth_error caras_y i = Some (py_count (firstn (S i) results) Cara) /\
      nth_error cruces_y i =
        Some (Z.of_nat (S i) - py_count (firstn (S i) results) Cara)%Z.
Proof.
  cbv zeta.
  pose proof (cumulative_chart_points results) as A. cbv zeta in A.
  destruct A as [_ [Lx [_ [Lc [Lz A]]]]].
  exists (axis (create_cumulative_chart results) 0),
         (series (create_cumulative_chart results) 0),
         (series (create_cumulative_chart results) 1).
  split; [reflexivity|].
  split; [exact Lx|]. split; [exact Lc|]. split; [exact Lz|].
  intros i Hi. destruct (A i Hi) as [X0 [_ [Hc Hz]]].
  split; [exact X0|]. split; [exact Hc|exact Hz].
Qed.

Lemma cumulative_chart_prefix_counts_witness :
  exists xs caras_y cruces_y,
    data (create_cumulative_chart [Cruz; Cara; "x"%string]) =
      [Scatter xs caras_y "Caras"; Scatter xs cruces_y "Cruces"] /\
    List.length xs = 3%nat /\ List.length caras_y = 3%nat /\
    List.length cruces_y = 3%nat /\
    forall i, (i < 3)%nat ->
      nth_error xs i = Some (Z.of_nat (S i)) /\
      nth_error caras_y i =
        Some (py_count (firstn (S i) [Cruz; Cara; "x"%string]) Cara) /\
      nth_error cruces_y i =
        Some (Z.of_nat (S i) - py_count (firstn (S i) [Cruz; Cara; "x"%string]) Cara)%Z.
Proof.
  exact (cumulative_chart_prefix_counts [Cruz; Cara; "x"%string]).
Defined.

(** X2. At every flip the two series of the cumulative chart add up to
    the flip number, for every list: an element other than 'Cara' - also
    one that is not 'Cruz' - is counted in the series "Cruces". *)
Theorem cumulative_chart_series_add_up (results : list string) (i : nat) :
  (i < List.length results)%nat ->
  let fig := create_cumulative_chart results in
  exists c z,
    nth_error (series fig 0) i = Some c /\
    nth_error (series fig 1) i = Some z /\
    nth_error (axis fig 0) i = Some (c + z)%Z /\
    (c + z = Z.of_nat i + 1)%Z /\ (0 <= c)%Z /\ (0 <= z)%Z.
Proof.
  intros Hi. cbv zeta.
  pose proof (cumulative_chart_points results) as A. cbv zeta in A.
  destruct A as [_ [_ [_ [_ [_ A]]]]]. destruct (A i Hi) as [X0 [_ [Hc Hz]]].
  pose proof (prefix_count_bounds results i Hi) as B.
  eexists. eexists. split; [exact Hc|]. split; [exact Hz|].
  split; [rewrite X0; f_equal; lia|]. lia.
Qed.

Lemma cumulative_chart_series_add_up_witness :
  let fig := create_cumulative_chart [Cara; "?"%string; Cruz] in
  exists c z,
    nth_error (series fig 0) 1 = Some c /\
    nth_error (series fig 1) 1 = Some z /\
    nth_error (axis fig 0) 1 = Some (c + z)%Z /\
    (c + z = Z.of_nat 1 + 1)%Z /\ (0 <= c)%Z /\ (0 <= z)%Z.
Proof.
  apply (cumulative_chart_series_add_up [Cara; "?"%string; Cruz] 1). simpl. lia.
Defined.

(** X3. From one flip to the next exactly one series of the cumulative
    chart grows, by exactly 1: the series named "Caras" when the new result
    is 'Cara', the series named "Cruces" otherwise; before the first flip
    both counts are 0. *)
Theorem cumulative_chart_steps (results : list string) (i : nat) (x : string) :
  nth_error results i = Some x ->
  exists xs caras_y cruces_y c z c' z',
    data (create_cumulative_chart results) =
      [Scatter xs caras_y "Caras"; Scatter xs cruces_y "Cruces"] /\
    match i with O => Some 0%Z | S j => nth_error caras_y j end = Some c /\
    match i with O => Some 0%Z | S j => nth_error cruces_y j end = Some z /\
    nth_error caras_y i = Some c' /\
    nth_error cruces_y i = Some z' /\
    (if string_dec x Cara
     then c' = (c + 1)%Z /\ z' = z
     else c' = c /\ z' = (z + 1)%Z).
Proof.
  intros Hx.
  assert (Hi : (i < List.length results)%nat) by (apply nth_error_Some; congruence).
  pose proof (cumulative_chart_points results) as A. cbv zeta in A.
  destruct A as [_ [_ [_ [_ [_ A]]]]]. destruct (A i Hi) as [_ [_ [Hc Hz]]].
  rewrite (firstn_succ_snoc results i x Hx) in Hc, Hz.
  unfold py_count in Hc, Hz. rewrite count_occ_snoc in Hc, Hz.
  exists (axis (create_cumulative_chart results) 0),
         (series (create_cumulative_chart results) 0),
         (series (create_cumulative_chart results) 1).
  destruct i as [|j].
  - exists 0%Z, 0%Z. eexists. eexists.
    split; [reflexivity|].
    split; [reflexivity|]. split; [reflexivity|].
    split; [exact Hc|]. split; [exact Hz|].
    cbn [firstn count_occ]. destruct (string_dec x Cara); split; lia.
  - destruct (A j ltac:(lia)) as [_ [_ [Cj Zj]]].
    eexists. eexists. eexists. eexists.
    split; [reflexivity|].
    split; [exact Cj|]. split; [exact Zj|].
    split; [exact Hc|]. split; [exact Hz|].
    unfold py_count. destruct (string_dec x Cara); split; lia.
Qed.

Lemma cumulative_chart_steps_witness :
  exists xs caras_y cruces_y c z c' z',
    data (create_cumulative_chart [Cara; Cruz; Cara]) =
      [Scatter xs caras_y "Caras"; Scatter xs cruces_y "Cruces"] /\
    nth_error caras_y 1 = Some c /\
    nth_error cruces_y 1 = Some z /\
    nth_error caras_y 2 = Some c' /\
    nth_error cruces_y 2 = Some z' /\
    (if string_dec Cara Cara
     then c' = (c + 1)%Z /\ z' = z
     else c' = c /\ z' = (z + 1)%Z).
Proof.
  apply (cumulative_chart_steps [Cara; Cruz; Cara] 2 Cara). reflexivity.
Defined.

(** X4. The last point of the cumulative chart against
    [calculate_statistics]: the series named "Caras" ends at the heads
    count of the statistics; the series named "Cruces" ends at total -
    heads, which is the tails count of the statistics exactly when every
    element is 'Cara' or 'Cruz', and is larger otherwise. *)
Theorem cumulative_chart_final_values (results : list string) :
  results <> [] ->
  let s := calculate_statistics results in
  exists xs caras_y cruces_y,
    data (create_cumulative_chart results) =
      [Scatter xs caras_y "Caras"; Scatter xs cruces_y "Cruces"] /\
    last caras_y 0%Z = caras s /\
    last cruces_y 0%Z = (total s - caras s)%Z /\
    (cruces s <= last cruces_y 0)%Z /\
    (last cruces_y 0%Z = cruces s <-> Forall is_outcome results).
Proof.
  intros Hne. cbv zeta.
  pose proof (cumulative_chart_points results) as A. cbv zeta in A.
  destruct A as [_ [_ [_ [Lc [Lz A]]]]].
  assert (Hn : (0 < List.length results)%nat).
  { destruct results; [contradiction|simpl; lia]. }
  destruct (A (List.length results - 1)%nat ltac:(lia)) as [_ [_ [Hc Hz]]].
  replace (S (List.length results - 1)) with (List.length results) in Hc, Hz by lia.
  rewrite firstn_all in Hc, Hz.
  rewrite <- Lc in Hc at 1. rewrite <- Lz in Hz at 1.
  apply nth_error_last in Hc, Hz.
  exists (axis (create_cumulative_chart results) 0),
         (series (create_cumulative_chart results) 0),
         (series (create_cumulative_chart results) 1).
  split; [reflexivity|]. rewrite Hc, Hz.
  cbn [calculate_statistics caras cruces total]. unfold py_len, py_count.
  pose proof (count_pair_le results) as Le.
  split; [reflexivity|]. split; [lia|]. split; [lia|].
  split.
  - intros E. apply count_pair_eq_all. lia.
  - intros F. apply count_pair_all in F. lia.
Qed.

Lemma cumulative_chart_final_values_witness :
  let s := calculate_statistics [Cara; "cruz"%string] in
  exists xs caras_y cruces_y,
    data (create_cumulative_chart [Cara; "cruz"%string]) =
      [Scatter xs caras_y "Caras"; Scatter xs cruces_y "Cruces"] /\
    last caras_y 0%Z = caras s /\
    last cruces_y 0%Z = (total s - caras s)%Z /\
    (cruces s <= last cruces_y 0)%Z /\
    (last cruces_y 0%Z = cruces s <-> Forall is_outcome [Cara; "cruz"%string]).
Proof.
  apply (cumulative_chart_final_values [Cara; "cruz"%string]). discriminate.
Defined.

(* ------------------------------------------------------------------ *)
(** ** [flip_coin]: more properties *)

Lemma take_indices_length (a : list string) (idx : list nat) (l : list string) :
  take_indices a idx = Ok l -> List.length l = List.length idx.
Proof.
  revert l. induction idx as [|i r IH]; intros l H; cbn in H.
  - injection H as <-. reflexivity.
  - destruct (nth_error a i); [|discriminate H].
    destruct (take_indices a r) as [l'|e]; [|discriminate H].
    injection H as <-. cbn. f_equal. apply IH. reflexivity.
Qed.

Lemma take_indices_no_value_error (a : list string) (idx : list nat) :
  take_indices a idx <> Raise ValueError.
Proof.
  induction idx as [|i r IH]; cbn; [discriminate|].
  destruct (nth_error a i); [|discriminate].
  destruct (take_indices a r) as [l'|e]; [discriminate|].
  intros H. apply IH. exact H.
Qed.

(** X5. The random source across a call: when [flip_coin] fails with a
    ValueError no sample has been drawn (the generator is returned as it
    was); when it returns a list, the list has [n_flips] elements and
    exactly [n_flips] samples have been consumed. *)
Theorem flip_coin_generator (n : Z) (p : Q) (g : rng) :
  (fst (flip_coin n p g) = Raise ValueError -> snd (flip_coin n p g) = g) /\
  (forall l, fst (flip_coin n p g) = Ok l ->
     List.length l = Z.to_nat n /\ (0 <= n)%Z /\ 0 <= p <= 1 /\
     snd (flip_coin n p g) = rng_drop (Z.to_nat n) g).
Proof.
  unfold flip_coin, random_choice.
  cbn [List.length Nat.eqb negb existsb qsum fold_right].
  destruct (Qle_bool 0 p) eqn:B0; cbn [negb orb];
    [|split; [reflexivity|intros l H; discriminate H]].
  destruct (Qle_bool 0 (1 - p)) eqn:B1; cbn [negb orb];
    [|split; [reflexivity|intros l H; discriminate H]].
  destruct (Qeq_bool (p + (1 - p + 0)) 1); cbn [negb];
    [|split; [reflexivity|intros l H; discriminate H]].
  destruct (n <? 0)%Z eqn:B3;
    [split; [reflexivity|intros l H; discriminate H]|].
  cbn [fst snd]. split.
  - intros H. exfalso. exact (take_indices_no_value_error _ _ H).
  - intros l H. apply take_indices_length in H.
    unfold rng_take in H. rewrite !length_map, length_seq in H.
    apply Z.ltb_ge in B3. apply Qle_bool_iff in B0, B1.
    split; [exact H|]. split; [exact B3|]. split; [split; lra|reflexivity].
Qed.

Lemma flip_coin_generator_witness :
  fst (flip_coin (-1) (1 # 2) sample_rng) = Raise ValueError /\
  snd (flip_coin (-1) (1 # 2) sample_rng) = sample_rng.
Proof.
  split; [reflexivity|].
  apply (flip_coin_generator (-1) (1 # 2) sample_rng). reflexivity.
Defined.

Lemma map_constant (f : Q -> string) (c : string) (us : list Q) :
  (forall u, In u us -> f u = c) -> map f us = repeat c (List.length us).
Proof.
  induction us as [|u us IH]; intros H; [reflexivity|].
  cbn. rewrite (H u) by (left; reflexivity). f_equal.
  apply IH. intros v Hv. apply H. right. exact Hv.
Qed.

Lemma rng_take_uniform (n : nat) (g : rng) (u : Q) :
  uniform_source g -> In u (rng_take n g) -> 0 <= u /\ u < 1.
Proof.
  intros Hg H. unfold rng_take in H. apply in_map_iff in H as [i [<- _]]. apply Hg.
Qed.

Lemma rng_take_length (n : nat) (g : rng) : List.length (rng_take n g) = n.
Proof. unfold rng_take. rewrite length_map, length_seq. reflexivity. Qed.

(** X6. The probability is the probability of 'Cara': with probability 0
    every flip is 'Cruz' and with probability 1 every flip is 'Cara'. *)
Theorem flip_coin_certain (n : Z) (g : rng) :
  (0 <= n)%Z -> uniform_source g ->
  fst (flip_coin n 0 g) = Ok (repeat Cruz (Z.to_nat n)) /\
  fst (flip_coin n 1 g) = Ok (repeat Cara (Z.to_nat n)).
Proof.
  intros Hn Hg. split.
  - rewrite flip_coin_valid; [|exact Hn|lra|intros i _; apply Hg].
    cbn [fst]. f_equal.
    rewrite <- (rng_take_length (Z.to_nat n) g) at 2.
    apply map_constant. intros u Hu.
    apply (rng_take_uniform _ _ _ Hg) in Hu. unfold outcome_of.
    destruct (Qle_bool 0 u) eqn:B; [reflexivity|].
    assert (C : Qle_bool 0 u = true) by (apply Qle_bool_iff; lra). congruence.
  - rewrite flip_coin_valid; [|exact Hn|lra|intros i _; apply Hg].
    cbn [fst]. f_equal.
    rewrite <- (rng_take_length (Z.to_nat n) g) at 2.
    apply map_constant. intros u Hu.
    apply (rng_take_uniform _ _ _ Hg) in Hu. unfold outcome_of.
    destruct (Qle_bool 1 u) eqn:B; [|reflexivity].
    apply Qle_bool_iff in B. lra.
Qed.

Lemma flip_coin_certain_witness :
  fst (flip_coin 4 0 sample_rng) = Ok (repeat Cruz (Z.to_nat 4)) /\
  fst (flip_coin 4 1 sample_rng) = Ok (repeat Cara (Z.to_nat 4)).
Proof.
  apply (flip_coin_certain 4 sample_rng); [lia|exact sample_rng_uniform].
Defined.

Lemma count_occ_map_le (f f' : Q -> string) (us : list Q) :
  (forall u, f u = Cara -> f' u = Cara) ->
  (count_occ string_dec (map f us) Cara <= count_occ string_dec (map f' us) Cara)%nat.
Proof.
  intros H. induction us as [|u us IH]; [cbn; lia|].
  cbn [map count_occ].
  destruct (string_dec (f u) Cara) as [E|N].
  - rewrite (H u E). destruct (string_dec Cara Cara); [lia|contradiction].
  - destruct (string_dec (f' u) Cara); lia.
Qed.

Lemma outcome_of_mono (p p' u : Q) :
  p <= p' -> outcome_of p u = Cara -> outcome_of p' u = Cara.
Proof.
  intros H. unfold outcome_of.
  destruct (Qle_bool p u) eqn:B; [discriminate|]. intros _.
  destruct (Qle_bool p' u) eqn:B'; [|reflexivity].
  apply Qle_bool_iff in B'.
  assert (C : Qle_bool p u = true) by (apply Qle_bool_iff; lra). congruence.
Qed.

(** X7. On the same random samples a larger probability can only turn
    'Cruz' into 'Cara': every flip that is 'Cara' stays 'Cara', so the heads
    count of the statistics does not decrease. *)
Theorem flip_coin_monotone_in_probability (n : Z) (p p' : Q) (g : rng) :
  (0 <= n)%Z -> 0 <= p -> p <= p' -> p' <= 1 -> uniform_source g ->
  exists l l',
    fst (flip_coin n p g) = Ok l /\ fst (flip_coin n p' g) = Ok l' /\
    (forall i, nth_error l i = Some Cara -> nth_error l' i = Some Cara) /\
    (caras (calculate_statistics l) <= caras (calculate_statistics l'))%Z.
Proof.
  intros Hn H0 Hpp H1 Hg.
  rewrite !flip_coin_valid; [|exact Hn|lra|intros i _; apply Hg|exact Hn|lra|intros i _; apply Hg].
  cbn [fst]. eexists. eexists. split; [reflexivity|]. split; [reflexivity|]. split.
  - intros i. rewrite !nth_error_map.
    destruct (nth_error (rng_take (Z.to_nat n) g) i) as [u|]; cbn [option_map]; [|discriminate].
    intros E. injection E as E. f_equal. apply (outcome_of_mono p p' u Hpp E).
  - cbn [calculate_statistics caras]. unfold py_count. apply inj_le.
    apply count_occ_map_le. intros u. apply outcome_of_mono, Hpp.
Qed.

Lemma flip_coin_monotone_in_probability_witness :
  exists l l',
    fst (flip_coin 5 (1 # 4) sample_rng) = Ok l /\
    fst (flip_coin 5 (1 # 2) sample_rng) = Ok l' /\
    (forall i, nth_error l i = Some Cara -> nth_error l' i = Some Cara) /\
    (caras (calculate_statistics l) <= caras (calculate_statistics l'))%Z.
Proof.
  apply (flip_coin_monotone_in_probability 5 (1 # 4) (1 # 2) sample_rng);
    [lia|lra|lra|lra|exact sample_rng_uniform].
Defined.

Lemma count_caras_below (p : Q) (us : list Q) :
  count_occ string_dec (map (outcome_of p) us) Cara =
  List.length (filter (fun u => negb (Qle_bool p u)) us).
Proof.
  induction us as [|u us IH]; [reflexivity|].
  cbn [map filter]. unfold outcome_of at 1.
  destruct (Qle_bool p u) eqn:B; cbn [negb].
  - rewrite count_occ_cons_neq by discriminate. exact IH.
  - rewrite count_occ_cons_eq by reflexivity. cbn [List.length]. f_equal. exact IH.
Qed.

Lemma count_cruces_not_below (p : Q) (us : list Q) :
  count_occ string_dec (map (outcome_of p) us) Cruz =
  List.length (filter (fun u => Qle_bool p u) us).
Proof.
  induction us as [|u us IH]; [reflexivity|].
  cbn [map filter]. unfold outcome_of at 1.
  destruct (Qle_bool p u) eqn:B.
  - rewrite count_occ_cons_eq by reflexivity. cbn [List.length]. f_equal. exact IH.
  - rewrite count_occ_cons_neq by discriminate. exact IH.
Qed.

(** X8. A launch of the application ([flip_coin] followed by
    [calculate_statistics], with the bounds of the two sliders): the
    statistics have total = n_flips >= 1 and heads + tails = total; the
    heads count is the number of samples below the probability and the
    tails count the number of the other samples. *)
Theorem launch_statistics (n : Z) (p : Q) (g : rng) :
  (1 <= n <= 1000)%Z -> 0 <= p <= 1 -> uniform_source g ->
  exists l,
    fst (flip_coin n p g) = Ok l /\
    let s := calculate_statistics l in
    total s = n /\ (caras s + cruces s = total s)%Z /\
    caras s = Z.of_nat (List.length
                (filter (fun u => negb (Qle_bool p u)) (rng_take (Z.to_nat n) g))) /\
    cruces s = Z.of_nat (List.length
                (filter (fun u => Qle_bool p u) (rng_take (Z.to_nat n) g))).
Proof.
  intros Hn Hp Hg.
  rewrite flip_coin_valid; [|lia|exact Hp|intros i _; apply Hg].
  cbn [fst]. eexists. split; [reflexivity|]. cbv zeta.
  set (l := map (outcome_of p) (rng_take (Z.to_nat n) g)).
  assert (F : Forall is_outcome l).
  { apply Forall_forall. intros x Hx. apply in_map_iff in Hx as [u [<- _]].
    apply outcome_of_is_outcome. }
  assert (Len : List.length l = Z.to_nat n).
  { unfold l. rewrite length_map. apply rng_take_length. }
  pose proof (count_pair_all l F) as Sum.
  cbn [calculate_statistics total caras cruces].
  unfold py_len, py_count. rewrite Len.
  split; [lia|]. split; [lia|]. split.
  - f_equal. apply count_caras_below.
  - f_equal. apply count_cruces_not_below.
Qed.

Lemma launch_statistics_witness :
  exists l,
    fst (flip_coin 10 (1 # 3) sample_rng) = Ok l /\
    let s := calculate_statistics l in
    total s = 10%Z /\ (caras s + cruces s = total s)%Z /\
    caras s = Z.of_nat (List.length
                (filter (fun u => negb (Qle_bool (1 # 3) u)) (rng_take (Z.to_nat 10) sample_rng))) /\
    cruces s = Z.of_nat (List.length
                (filter (fun u => Qle_bool (1 # 3) u) (rng_take (Z.to_nat 10) sample_rng))).
Proof.
  apply (launch_statistics 10 (1 # 3) sample_rng); [lia|lra|exact sample_rng_uniform].
Defined.

(* ------------------------------------------------------------------ *)
(** ** [perform_binomial_test]: failures *)

Lemma argcheck_invalid (n : Z) (p : Q) :
  (n < 0)%Z \/ p < 0 \/ 1 < p -> argcheck n p = false.
Proof.
  intros H. unfold argcheck.
  destruct (0 <=? n)%Z eqn:Bn; [|reflexivity].
  destruct (Qle_bool 0 p) eqn:B0; [|reflexivity].
  destruct (Qle_bool p 1) eqn:B1; [|reflexivity].
  apply Z.leb_le in Bn. apply Qle_bool_iff in B0, B1.
  destruct H as [H|[H|H]]; [lia|lra|lra].
Qed.

(** X10. Without [binomtest] (the AttributeError branch), for integers in
    the 64-bit range: a negative total or a probability outside [0, 1] is
    not rejected; the result has a nan p-value, nan interval bounds and the
    verdict "not fair". *)
Theorem perform_binomial_test_fallback_nan (k n : Z) (p : Q) :
  (- 9223372036854775808 <= k < 9223372036854775808)%Z ->
  (- 9223372036854775808 <= n < 9223372036854775808)%Z ->
  (n < 0)%Z \/ p < 0 \/ 1 < p ->
  exists r,
    perform_binomial_test false k n p = Ok r /\
    p_value r = NaN /\ is_fair r = false /\ confidence_interval r = (NaN, NaN).
Proof.
  intros _ _ H. eexists. split; [reflexivity|].
  apply argcheck_invalid in H.
  unfold finish_test, manual_p_value, binom_cdf, binom_interval.
  cbn [p_value is_fair confidence_interval]. rewrite H.
  destruct (Qle_bool (inject_Z k) (inject_Z n * p)); cbn; repeat split; reflexivity.
Qed.

Lemma perform_binomial_test_fallback_nan_witness :
  exists r,
    perform_binomial_test false 3 10 (3 # 2) = Ok r /\
    p_value r = NaN /\ is_fair r = false /\ confidence_interval r = (NaN, NaN).
Proof.
  apply (perform_binomial_test_fallback_nan 3 10 (3 # 2)); [lia|lia|].
  right. right. reflexivity.
Defined.

Lemma fin_zero_not_fair (n : Z) (p x : Q) :
  x == 0 -> is_fair (finish_test n p (Fin x)) = false.
Proof.
  intros H. destruct (is_fair (finish_test n p (Fin x))) eqn:B; [|reflexivity].
  apply is_fair_threshold in B. lra.
Qed.

(** X11. Without [binomtest], an impossible head count (negative, or above
    the total) is not rejected: the p-value is 0 and the verdict "not
    fair". *)
Theorem perform_binomial_test_fallback_impossible_count (k n : Z) (p : Q) :
  (0 <= n)%Z -> 0 <= p <= 1 -> (k < 0)%Z \/ (n < k)%Z ->
  exists r x,
    perform_binomial_test false k n p = Ok r /\
    p_value r = Fin x /\ x == 0 /\ is_fair r = false.
Proof.
  intros Hn Hp Hk.
  destruct (manual_p_value_formula k n p Hn Hp) as [x [E Hx]].
  assert (Zero : x == 0).
  { rewrite Hx. unfold spec_p_value. cbv zeta.
    pose proof (inject_Z_nonneg n Hn) as Nn.
    destruct Hk as [Hk|Hk].
    - assert (B : Qle_bool (inject_Z k) (inject_Z n * p) = true).
      { apply Qle_bool_iff.
        assert (inject_Z k < 0) by (change 0 with (inject_Z 0); rewrite <- Zlt_Qlt; exact Hk).
        assert (0 <= inject_Z n * p) by (apply Qmult_le_0_compat; lra).
        lra. }
      rewrite B, cdf_negative by exact Hk. apply Q.min_r. lra.
    - assert (B : Qle_bool (inject_Z k) (inject_Z n * p) = false).
      { destruct (Qle_bool _ _) eqn:B; [|reflexivity]. apply Qle_bool_iff in B.
        assert (inject_Z n < inject_Z k) by (rewrite <- Zlt_Qlt; exact Hk).
        assert (inject_Z n * p <= inject_Z n) by nra.
        lra. }
      rewrite B.
      replace (k - 1)%Z with (Z.of_nat (Z.to_nat (k - 1))) by lia.
      rewrite cdf_of_nat, cdf_upto_full by lia.
      rewrite Q.min_r by lra. ring. }
  exists (finish_test n p (Fin x)), x.
  unfold perform_binomial_test, stats_binomtest. rewrite E.
  split; [reflexivity|]. split; [reflexivity|]. split; [exact Zero|].
  apply fin_zero_not_fair, Zero.
Qed.

Lemma perform_binomial_test_fallback_impossible_count_witness :
  exists r x,
    perform_binomial_test false 12 10 (1 # 2) = Ok r /\
    p_value r = Fin x /\ x == 0 /\ is_fair r = false.
Proof.
  apply (perform_binomial_test_fallback_impossible_count 12 10 (1 # 2));
    [lia|lra|right; lia].
Defined.

(* ------------------------------------------------------------------ *)
(** ** [perform_binomial_test] for the fair coin *)

Lemma half_le_r (a b : Z) : inject_Z a <= inject_Z b * (1 # 2) <-> (2 * a <= b)%Z.
Proof. unfold Qle, Qmult, inject_Z. cbn [Qnum Qden]. lia. Qed.

Lemma spec_p_value_fair_low (k n : Z) :
  (2 * k <= n)%Z ->
  spec_p_value k n (1 # 2) = Qmin 1 (2 * cdf (Z.to_nat n) (1 # 2) k).
Proof.
  intros H. unfold spec_p_value. cbv zeta.
  assert (B : Qle_bool (inject_Z k) (inject_Z n * (1 # 2)) = true).
  { apply Qle_bool_iff, half_le_r, H. }
  rewrite B. reflexivity.
Qed.

Lemma spec_p_value_fair_high (k n : Z) :
  (n < 2 * k)%Z ->
  spec_p_value k n (1 # 2) = Qmin 1 (2 * (1 - cdf (Z.to_nat n) (1 # 2) (k - 1))).
Proof.
  intros H. unfold spec_p_value. cbv zeta.
  assert (B : Qle_bool (inject_Z k) (inject_Z n * (1 # 2)) = false).
  { destruct (Qle_bool _ _) eqn:B; [|reflexivity].
    apply Qle_bool_iff, half_le_r in B. lia. }
  rewrite B. reflexivity.
Qed.

(** Both branches of the test, for the fair coin, in one formula. *)
Lemma fair_test_result (v : bool) (k n : Z) :
  (1 <= n <= 10000000)%Z -> (0 <= k <= n)%Z ->
  exists x,
    perform_binomial_test v k n (1 # 2) = Ok (finish_test n (1 # 2) (Fin x)) /\
    x == spec_p_value k n (1 # 2).
Proof.
  intros Hn Hk.
  rewrite perform_binomial_test_valid by (lia || lra).
  destruct v.
  - eexists. split; [reflexivity|].
    rewrite fair_two_sided_pvalue by lia.
    rewrite !Z2Nat.id by lia. reflexivity.
  - destruct (manual_p_value_formula k n (1 # 2)) as [x [E Hx]]; [lia|lra|].
    rewrite E. exists x. split; [reflexivity|exact Hx].
Qed.

Lemma is_fair_compat (n : Z) (p x y : Q) :
  x == y -> is_fair (finish_test n p (Fin x)) = is_fair (finish_test n p (Fin y)).
Proof.
  intros H.
  destruct (is_fair (finish_test n p (Fin x))) eqn:Bx,
           (is_fair (finish_test n p (Fin y))) eqn:By; try reflexivity.
  - apply is_fair_threshold in Bx. rewrite H in Bx.
    apply (proj2 (is_fair_threshold n p y)) in Bx. congruence.
  - apply is_fair_threshold in By. rewrite <- H in By.
    apply (proj2 (is_fair_threshold n p x)) in By. congruence.
Qed.

Lemma spec_p_value_fair_symmetric (k n : Z) :
  (0 <= n)%Z -> (0 <= k <= n)%Z ->
  spec_p_value k n (1 # 2) == spec_p_value (n - k) n (1 # 2).
Proof.
  intros Hn Hk.
  destruct (Z.lt_trichotomy (2 * k) n) as [L|[E|G]].
  - rewrite spec_p_value_fair_low, spec_p_value_fair_high by lia.
    apply qmin_cap_compat.
    pose proof (cdf_symmetric (Z.to_nat n) (1 # 2) k ltac:(reflexivity)) as Sy.
    rewrite Z2Nat.id in Sy by lia.
    replace (n - k - 1)%Z with (n - 1 - k)%Z by lia. lra.
  - replace (n - k)%Z with k by lia. reflexivity.
  - rewrite spec_p_value_fair_high, spec_p_value_fair_low by lia.
    apply qmin_cap_compat.
    pose proof (cdf_symmetric (Z.to_nat n) (1 # 2) (k - 1) ltac:(reflexivity)) as Sy.
    rewrite Z2Nat.id in Sy by lia.
    replace (n - 1 - (k - 1))%Z with (n - k)%Z in Sy by lia. lra.
Qed.

(** X12. For the fair coin the verdict does not depend on which face is
    called heads: k heads and total - k heads give the same verdict and the
    same interval (with or without [binomtest], up to 10^7 flips). *)
Theorem perform_binomial_test_fair_symmetric (v : bool) (k n : Z) :
  (1 <= n <= 10000000)%Z -> (0 <= k <= n)%Z ->
  exists r r',
    perform_binomial_test v k n (1 # 2) = Ok r /\
    perform_binomial_test v (n - k) n (1 # 2) = Ok r' /\
    is_fair r = is_fair r' /\
    confidence_interval r = confidence_interval r'.
Proof.
  intros Hn Hk.
  destruct (fair_test_result v k n Hn Hk) as [x [E Hx]].
  destruct (fair_test_result v (n - k) n Hn ltac:(lia)) as [x' [E' Hx']].
  assert (Hxx : x == x').
  { rewrite Hx, Hx'. apply spec_p_value_fair_symmetric; lia. }
  exists (finish_test n (1 # 2) (Fin x)), (finish_test n (1 # 2) (Fin x')).
  split; [exact E|]. split; [exact E'|].
  split; [apply is_fair_compat, Hxx|reflexivity].
Qed.

Lemma perform_binomial_test_fair_symmetric_witness :
  exists r r',
    perform_binomial_test true 2 10 (1 # 2) = Ok r /\
    perform_binomial_test true (10 - 2) 10 (1 # 2) = Ok r' /\
    is_fair r = is_fair r' /\
    confidence_interval r = confidence_interval r'.
Proof.
  apply (perform_binomial_test_fair_symmetric true 2 10); lia.
Defined.

(** X13. For the fair coin an exactly even split (total = 2 heads) has
    p-value 1 and the verdict "fair", with or without [binomtest]. *)
Theorem perform_binomial_test_fair_even_split (v : bool) (k n : Z) :
  (1 <= n <= 10000000)%Z -> (2 * k = n)%Z ->
  exists r x,
    perform_binomial_test v k n (1 # 2) = Ok r /\
    p_value r = Fin x /\ x == 1 /\ is_fair r = true.
Proof.
  intros Hn Hk.
  destruct (fair_test_result v k n Hn ltac:(lia)) as [x [E Hx]].
  assert (One : x == 1).
  { rewrite Hx, spec_p_value_fair_low by lia.
    pose proof (cdf_fair_upper_half (Z.to_nat n) (1 # 2) k ltac:(reflexivity)) as U.
    rewrite Z2Nat.id in U by lia. specialize (U ltac:(lia)).
    apply Q.min_l. lra. }
  exists (finish_test n (1 # 2) (Fin x)), x.
  split; [exact E|]. split; [reflexivity|]. split; [exact One|].
  apply is_fair_threshold. lra.
Qed.

Lemma perform_binomial_test_fair_even_split_witness :
  exists r x,
    perform_binomial_test false 3 6 (1 # 2) = Ok r /\
    p_value r = Fin x /\ x == 1 /\ is_fair r = true.
Proof.
  apply (perform_binomial_test_fair_even_split false 3 6); lia.
Defined.

Lemma qmin_cap_mono (x y : Q) : x <= y -> Qmin 1 x <= Qmin 1 y.
Proof.
  intros H. apply Q.min_glb; [apply Q.le_min_l|].
  pose proof (Q.le_min_r 1 x). lra.
Qed.

(** X14. For the fair coin, moving the head count away from the middle
    never raises the p-value: for k <= k' <= total/2 the p-value of k is at
    most the p-value of k', so when k' is judged "not fair" so is k. *)
Theorem perform_binomial_test_fair_monotone (v : bool) (k k' n : Z) :
  (1 <= n <= 10000000)%Z -> (0 <= k <= k')%Z -> (2 * k' <= n)%Z ->
  exists r r' x x',
    perform_binomial_test v k n (1 # 2) = Ok r /\
    perform_binomial_test v k' n (1 # 2) = Ok r' /\
    p_value r = Fin x /\ p_value r' = Fin x' /\ x <= x' /\
    (is_fair r' = false -> is_fair r = false).
Proof.
  intros Hn Hk Hk'.
  destruct (fair_test_result v k n Hn ltac:(lia)) as [x [E Hx]].
  destruct (fair_test_result v k' n Hn ltac:(lia)) as [x' [E' Hx']].
  assert (Hxx : x <= x').
  { rewrite Hx, Hx', !spec_p_value_fair_low by lia.
    apply qmin_cap_mono.
    pose proof (cdf_mono (Z.to_nat n) (1 # 2) k k' ltac:(lra) ltac:(lia)). lra. }
  exists (finish_test n (1 # 2) (Fin x)), (finish_test n (1 # 2) (Fin x')), x, x'.
  split; [exact E|]. split; [exact E'|].
  split; [reflexivity|]. split; [reflexivity|]. split; [exact Hxx|].
  intros F. destruct (is_fair (finish_test n (1 # 2) (Fin x))) eqn:B; [|reflexivity].
  apply is_fair_threshold in B.
  assert (B' : 5 # 100 < x') by lra.
  apply (proj2 (is_fair_threshold n (1 # 2) x')) in B'. congruence.
Qed.

Lemma perform_binomial_test_fair_monotone_witness :
  exists r r' x x',
    perform_binomial_test true 1 10 (1 # 2) = Ok r /\
    perform_binomial_test true 4 10 (1 # 2) = Ok r' /\
    p_value r = Fin x /\ p_value r' = Fin x' /\ x <= x' /\
    (is_fair r' = false -> is_fair r = false).
Proof.
  apply (perform_binomial_test_fair_monotone true 1 4 10); lia.
Defined.

(* ------------------------------------------------------------------ *)
(** ** The fair coin: interval and verdict *)

Lemma pow2_mod5 (n : nat) : ((2 ^ Z.of_nat n) mod 5 <> 0)%Z.
Proof.
  induction n as [|n IH]; [cbn; lia|].
  rewrite Nat2Z.inj_succ, Z.pow_succ_r by lia.
  rewrite Z.mul_mod by lia.
  pose proof (Z.mod_pos_bound (2 ^ Z.of_nat n) 5 ltac:(lia)) as B.
  set (r := (2 ^ Z.of_nat n mod 5)%Z) in *.
  assert (C : (r = 1 \/ r = 2 \/ r = 3 \/ r = 4)%Z) by lia.
  destruct C as [C|[C|[C|C]]]; rewrite C; cbn; lia.
Qed.

Lemma qpow_half_pow2 (n : nat) : qpow (1 # 2) n * inject_Z (2 ^ Z.of_nat n) == 1.
Proof.
  induction n as [|n IH]; [reflexivity|].
  rewrite Nat2Z.inj_succ, Z.pow_succ_r by lia.
  rewrite inject_Z_mult. cbn [qpow]. change (inject_Z 2) with 2.
  setoid_replace ((1 # 2) * qpow (1 # 2) n * (2 * inject_Z (2 ^ Z.of_nat n)))
    with (qpow (1 # 2) n * inject_Z (2 ^ Z.of_nat n)) by ring.
  exact IH.
Qed.

(** Every value of the fair distribution function is an integer multiple
    of [2^-n]. *)
Lemma cdf_upto_fair_dyadic (n m : nat) :
  exists s : Z, cdf_upto n (1 # 2) m == inject_Z s * qpow (1 # 2) n.
Proof.
  induction m as [|m [s IH]].
  - exists (pascal n 0). cbn [cdf_upto]. apply pmf_fair. lia.
  - destruct (Nat.le_gt_cases (S m) n) as [L|G].
    + exists (s + pascal n (S m))%Z. cbn [cdf_upto].
      rewrite IH, pmf_fair, inject_Z_plus by exact L. ring.
    + exists s. cbn [cdf_upto]. rewrite IH, pmf_above by exact G. ring.
Qed.

Lemma cdf_upto_fair_not_fortieth (n m : nat) (a : Z) :
  (a mod 5 <> 0)%Z -> ~ cdf_upto n (1 # 2) m == a # 40.
Proof.
  intros Ha E. destruct (cdf_upto_fair_dyadic n m) as [s Hs].
  rewrite Hs in E.
  assert (E' : inject_Z s == (a # 40) * inject_Z (2 ^ Z.of_nat n)).
  { rewrite <- E.
    setoid_replace (inject_Z s * qpow (1 # 2) n * inject_Z (2 ^ Z.of_nat n))
      with (inject_Z s * (qpow (1 # 2) n * inject_Z (2 ^ Z.of_nat n))) by ring.
    rewrite qpow_half_pow2. ring. }
  unfold Qeq, Qmult, inject_Z in E'. cbn [Qnum Qden] in E'.
  pose proof (pow2_mod5 n) as P.
  set (t := (2 ^ Z.of_nat n)%Z) in *.
  assert (M : ((a * t) mod 5 = 0)%Z).
  { replace (a * t)%Z with (s * 8 * 5)%Z by lia. apply Z.mod_mul. lia. }
  rewrite Z.mul_mod in M by lia.
  pose proof (Z.mod_pos_bound t 5 ltac:(lia)) as B.
  pose proof (Z.mod_pos_bound a 5 ltac:(lia)) as B'.
  set (r := (t mod 5)%Z) in *. set (r' := (a mod 5)%Z) in *.
  assert (C : (r = 1 \/ r = 2 \/ r = 3 \/ r = 4)%Z) by lia.
  assert (C' : (r' = 1 \/ r' = 2 \/ r' = 3 \/ r' = 4)%Z) by lia.
  destruct C as [C|[C|[C|C]]]; destruct C' as [C'|[C'|[C'|C']]];
    rewrite C, C' in M; cbn in M; lia.
Qed.

(** For the fair coin the two quantiles of the interval mirror each
    other. *)
Lemma ppf_fair_mirror (n : nat) :
  (ppf n (1 # 2) ((1 - (95 # 100)) / 2) + ppf n (1 # 2) ((1 + (95 # 100)) / 2) = n)%nat.
Proof.
  set (q1 := (1 - (95 # 100)) / 2). set (q2 := (1 + (95 # 100)) / 2).
  assert (Hq1 : q1 == 1 # 40) by reflexivity.
  assert (Hq2 : q2 == 39 # 40) by reflexivity.
  set (lo := ppf n (1 # 2) q1). set (hi := ppf n (1 # 2) q2).
  pose proof (ppf_le_n n (1 # 2) q1) as Llo. fold lo in Llo.
  assert (Hp : 0 <= 1 # 2 <= 1) by (split; lra).
  (* below lo the distribution function is under 1/40 *)
  assert (Below : cdf n (1 # 2) (Z.of_nat lo - 1) < 1 # 40).
  { destruct lo as [|j] eqn:El.
    - rewrite cdf_negative by lia. lra.
    - replace (Z.of_nat (S j) - 1)%Z with (Z.of_nat j) by lia.
      rewrite cdf_of_nat, <- Hq1. apply ppf_below. fold lo. lia. }
  assert (Reach : 1 # 40 <= cdf n (1 # 2) (Z.of_nat lo)).
  { rewrite cdf_of_nat, <- Hq1. apply ppf_reaches. rewrite Hq1. lra. }
  assert (Upper : (hi <= n - lo)%nat).
  { apply ppf_least. rewrite <- cdf_of_nat.
    pose proof (cdf_symmetric n (1 # 2) (Z.of_nat (n - lo)) ltac:(reflexivity)) as Sy.
    replace (Z.of_nat n - 1 - Z.of_nat (n - lo))%Z with (Z.of_nat lo - 1)%Z in Sy by lia.
    rewrite Hq2. lra. }
  destruct (Nat.eq_dec hi (n - lo)) as [E|N]; [lia|].
  exfalso.
  assert (Lt : (hi < n - lo)%nat) by lia.
  pose proof (ppf_reaches n (1 # 2) q2 ltac:(rewrite Hq2; lra)) as R.
  fold hi in R. rewrite <- cdf_of_nat in R.
  pose proof (cdf_symmetric n (1 # 2) (Z.of_nat hi) ltac:(reflexivity)) as Sy.
  pose proof (cdf_mono n (1 # 2) (Z.of_nat lo) (Z.of_nat n - 1 - Z.of_nat hi) Hp ltac:(lia)) as M.
  apply (cdf_upto_fair_not_fortieth n hi 39); [cbn; lia|]. rewrite <- cdf_of_nat.
  apply Qle_antisym; lra.
Qed.

(** The interval of a valid fair test, by its two quantiles. *)
Lemma fair_interval (v : bool) (k n : Z) :
  (1 <= n)%Z -> (0 <= k <= n)%Z ->
  exists r,
    perform_binomial_test v k n (1 # 2) = Ok r /\
    confidence_interval r =
    (Fin (inject_Z (Z.of_nat (ppf (Z.to_nat n) (1 # 2) ((1 - (95 # 100)) / 2)))),
     Fin (inject_Z (Z.of_nat (ppf (Z.to_nat n) (1 # 2) ((1 + (95 # 100)) / 2))))).
Proof.
  intros Hn Hk. apply confidence_interval_valid; [exact Hn|exact Hk|lra].
Qed.

(** X15. For the fair coin the interval is symmetric about total/2:
    ciLow + ciHigh = total, with ciLow <= total/2. *)
Theorem confidence_interval_fair_symmetric (v : bool) (k n : Z) :
  (1 <= n)%Z -> (0 <= k <= n)%Z ->
  exists r (lo hi : Z),
    perform_binomial_test v k n (1 # 2) = Ok r /\
    confidence_interval r = (Fin (inject_Z lo), Fin (inject_Z hi)) /\
    (lo + hi = n)%Z /\ (0 <= lo)%Z /\ (2 * lo <= n)%Z.
Proof.
  intros Hn Hk. destruct (fair_interval v k n Hn Hk) as [r [E C]].
  exists r. eexists. eexists. split; [exact E|]. split; [exact C|].
  pose proof (ppf_fair_mirror (Z.to_nat n)) as M.
  assert (Hq : (1 - (95 # 100)) / 2 <= 1 # 2) by (apply Qle_bool_iff; reflexivity).
  pose proof (ppf_fair_below_mean (Z.to_nat n) (1 # 2) ((1 - (95 # 100)) / 2)
                ltac:(reflexivity) Hq) as B.
  lia.
Qed.

Lemma confidence_interval_fair_symmetric_witness :
  exists r (lo hi : Z),
    perform_binomial_test true 2 8 (1 # 2) = Ok r /\
    confidence_interval r = (Fin (inject_Z lo), Fin (inject_Z hi)) /\
    (lo + hi = 8)%Z /\ (0 <= lo)%Z /\ (2 * lo <= 8)%Z.
Proof.
  apply (confidence_interval_fair_symmetric true 2 8); lia.
Defined.

(** X16. For the fair coin the verdict and the interval agree: the coin is
    judged "fair" exactly when the head count lies within the returned
    interval (with or without [binomtest], up to 10^7 flips). *)
Theorem fair_verdict_iff_inside_interval (v : bool) (k n : Z) :
  (1 <= n <= 10000000)%Z -> (0 <= k <= n)%Z ->
  exists r (lo hi : Z),
    perform_binomial_test v k n (1 # 2) = Ok r /\
    confidence_interval r = (Fin (inject_Z lo), Fin (inject_Z hi)) /\
    (is_fair r = true <-> (lo <= k <= hi)%Z).
Proof.
  intros Hn Hk.
  destruct (fair_test_result v k n Hn Hk) as [x [E Hx]].
  destruct (fair_interval v k n ltac:(lia) Hk) as [r [E' C]].
  rewrite E in E'. injection E' as <-.
  eexists. eexists. eexists. split; [exact E|]. split; [exact C|].
  rewrite is_fair_threshold.
  set (N := Z.to_nat n) in *.
  set (q1 := (1 - (95 # 100)) / 2) in *. set (q2 := (1 + (95 # 100)) / 2) in *.
  assert (Hq1 : q1 == 1 # 40) by reflexivity.
  assert (Hq2 : q2 == 39 # 40) by reflexivity.
  set (lo := ppf N (1 # 2) q1). set (hi := ppf N (1 # 2) q2).
  assert (Hp : 0 <= 1 # 2 <= 1) by (split; lra).
  pose proof (ppf_fair_below_mean N (1 # 2) q1 ltac:(reflexivity) ltac:(rewrite Hq1; lra)) as Blo.
  pose proof (ppf_fair_above_mean N (1 # 2) q2 ltac:(reflexivity)
                ltac:(rewrite Hq2; lra) ltac:(rewrite Hq2; lra)) as Bhi.
  fold lo in Blo. fold hi in Bhi.
  assert (EN : Z.of_nat N = n) by (unfold N; lia).
  rewrite EN in Blo, Bhi.
  pose proof (ppf_reaches N (1 # 2) q1 ltac:(rewrite Hq1; lra)) as Rlo. fold lo in Rlo.
  pose proof (ppf_reaches N (1 # 2) q2 ltac:(rewrite Hq2; lra)) as Rhi. fold hi in Rhi.
  rewrite <- cdf_of_nat in Rlo, Rhi.
  pose proof (Q.le_min_l 1 (2 * cdf N (1 # 2) k)) as Ml.
  pose proof (Q.le_min_r 1 (2 * cdf N (1 # 2) k)) as Mr.
  pose proof (Q.le_min_l 1 (2 * (1 - cdf N (1 # 2) (k - 1)))) as Ml'.
  pose proof (Q.le_min_r 1 (2 * (1 - cdf N (1 # 2) (k - 1)))) as Mr'.
  destruct (Z.le_gt_cases (2 * k) n) as [Low|High].
  - (* at or below the middle: only the lower bound matters *)
    rewrite spec_p_value_fair_low in Hx by exact Low. fold N in Hx.
    split.
    + intros F. split; [|lia].
      destruct (Z.le_gt_cases (Z.of_nat lo) k) as [L|G]; [exact L|]. exfalso.
      assert (B : cdf N (1 # 2) k < q1).
      { replace k with (Z.of_nat (Z.to_nat k)) by lia. rewrite cdf_of_nat.
        apply ppf_below. fold lo. lia. }
      lra.
    + intros [L _].
      pose proof (cdf_mono N (1 # 2) (Z.of_nat lo) k Hp L) as M.
      assert (Ne : ~ cdf N (1 # 2) k == 1 # 40).
      { replace k with (Z.of_nat (Z.to_nat k)) by lia. rewrite cdf_of_nat.
        apply cdf_upto_fair_not_fortieth. cbn. lia. }
      assert (S1 : 1 # 40 < cdf N (1 # 2) k).
      { apply Qnot_le_lt. intros C'. apply Ne. apply Qle_antisym; lra. }
      rewrite Hx. apply Q.min_glb_lt; lra.
  - (* above the middle: only the upper bound matters *)
    rewrite spec_p_value_fair_high in Hx by exact High. fold N in Hx.
    split.
    + intros F. split; [lia|].
      destruct (Z.le_gt_cases k (Z.of_nat hi)) as [L|G]; [exact L|]. exfalso.
      pose proof (cdf_mono N (1 # 2) (Z.of_nat hi) (k - 1) Hp ltac:(lia)) as M.
      lra.
    + intros [_ L].
      assert (B : cdf N (1 # 2) (k - 1) < q2).
      { replace (k - 1)%Z with (Z.of_nat (Z.to_nat (k - 1))) by lia. rewrite cdf_of_nat.
        apply ppf_below. fold hi. lia. }
      rewrite Hx. apply Q.min_glb_lt; lra.
Qed.

Lemma fair_verdict_iff_inside_interval_witness :
  exists r (lo hi : Z),
    perform_binomial_test true 1 10 (1 # 2) = Ok r /\
    confidence_interval r = (Fin (inject_Z lo), Fin (inject_Z hi)) /\
    (is_fair r = true <-> (lo <= 1 <= hi)%Z).
Proof.
  apply (fair_verdict_iff_inside_interval true 1 10); lia.
Defined.

(* ------------------------------------------------------------------ *)
(** ** The charts together *)

(** X17. The three charts of a non-empty list: pie and bar chart plot
    the same two values; these are the end points of the cumulative chart
    exactly when every element is 'Cara' or 'Cruz', and then they add up to
    the number of flips. *)
Theorem charts_agree (results : list string) :
  results <> [] ->
  let s := calculate_statistics results in
  let cum := create_cumulative_chart results in
  series (create_pie_chart s) 0 = series (create_bar_chart s) 0 /\
  (series (create_pie_chart s) 0 = [last (series cum 0) 0%Z; last (series cum 1) 0%Z]
   <-> Forall is_outcome results) /\
  (Forall is_outcome results ->
   (last (series cum 0) 0 + last (series cum 1) 0 = py_len results)%Z).
Proof.
  intros Hne. cbv zeta.
  split; [reflexivity|].
  pose proof (cumulative_chart_points results) as A. cbv zeta in A.
  destruct A as [_ [_ [_ [Lc [Lz A]]]]].
  assert (Hn : (0 < List.length results)%nat).
  { destruct results; [contradiction|simpl; lia]. }
  destruct (A (List.length results - 1)%nat ltac:(lia)) as [_ [_ [Hc Hz]]].
  replace (S (List.length results - 1)) with (List.length results) in Hc, Hz by lia.
  rewrite firstn_all in Hc, Hz.
  rewrite <- Lc in Hc at 1. rewrite <- Lz in Hz at 1.
  apply nth_error_last in Hc, Hz. rewrite Hc, Hz.
  unfold series, create_pie_chart. cbn [data nth_error trace_y calculate_statistics caras cruces].
  unfold py_count, py_len.
  pose proof (count_pair_le results) as Le.
  split; [split|].
  - intros E. injection E as E. apply count_pair_eq_all. lia.
  - intros F. apply count_pair_all in F. do 2 f_equal. lia.
  - intros _. lia.
Qed.

Lemma charts_agree_witness :
  let s := calculate_statistics [Cara; Cruz; Cruz] in
  let cum := create_cumulative_chart [Cara; Cruz; Cruz] in
  series (create_pie_chart s) 0 = series (create_bar_chart s) 0 /\
  (series (create_pie_chart s) 0 = [last (series cum 0) 0%Z; last (series cum 1) 0%Z]
   <-> Forall is_outcome [Cara; Cruz; Cruz]) /\
  (Forall is_outcome [Cara; Cruz; Cruz] ->
   (last (series cum 0) 0 + last (series cum 1) 0 = py_len [Cara; Cruz; Cruz])%Z).
Proof.
  apply (charts_agree [Cara; Cruz; Cruz]). discriminate.
Defined.

(* ------------------------------------------------------------------ *)
(** ** The page script *)

Lemma rng_drop_uniform (n : nat) (g : rng) :
  uniform_source g -> uniform_source (rng_drop n g).
Proof. intros H i. apply H. Qed.

Lemma coherent_empty : coherent empty_session.
Proof. exact I. Qed.

Lemma launch_valid (w : widgets) (ss : session_state) (g : rng) :
  slider_values w -> uniform_source g -> lanzar w = true ->
  exists results,
    launch w ss g =
      (Ok {| ss_results := Some results;
             ss_stats := Some (calculate_statistics results) |},
       rng_drop (Z.to_nat (n_flips w)) g) /\
    py_len results = n_flips w /\ Forall is_outcome results /\
    results = map (outcome_of (probability w)) (rng_take (Z.to_nat (n_flips w)) g).
Proof.
  intros [Hn Hp] Hg Hl. unfold launch. rewrite Hl.
  rewrite flip_coin_valid; [|lia|exact Hp|intros i _; apply Hg].
  eexists. split; [reflexivity|]. split; [|split; [|reflexivity]].
  - unfold py_len. rewrite length_map, rng_take_length. lia.
  - apply Forall_forall. intros x Hx. apply in_map_iff in Hx as [u [<- _]].
    apply outcome_of_is_outcome.
Qed.

Lemma coherent_stats_range (results : list string) :
  (0 <= caras (calculate_statistics results) <= total (calculate_statistics results))%Z /\
  (0 <= cruces (calculate_statistics results))%Z.
Proof.
  cbn [calculate_statistics caras cruces total]. unfold py_count, py_len.
  pose proof (count_pair_le results). lia.
Qed.

(** Showing a coherent session never fails. *)
Lemma show_coherent (v : bool) (ss : session_state) :
  coherent ss -> exists pg, show v ss = Rendered pg.
Proof.
  unfold coherent, show.
  destruct (ss_results ss) as [results|], (ss_stats ss) as [stats_data|];
    try contradiction.
  - intros [-> [Hlen F]].
    pose proof (coherent_stats_range results) as [Hc _].
    assert (Ht : total (calculate_statistics results) = py_len results) by reflexivity.
    rewrite perform_binomial_test_valid by (lia || lra).
    eexists. reflexivity.
  - intros _. eexists. reflexivity.
Qed.

Lemma interaction_coherent (v : bool) (w : widgets) (ss : session_state) (g : rng) :
  slider_values w -> coherent ss -> uniform_source g ->
  exists pg ss' g',
    interaction v w ss g = (Rendered pg, ss', g') /\
    coherent ss' /\ uniform_source g'.
Proof.
  intros Hw Hss Hg. unfold interaction, script.
  assert (L : exists ss1 g1, launch w ss g = (Ok ss1, g1) /\ coherent ss1 /\ uniform_source g1).
  { destruct (lanzar w) eqn:Hl.
    - destruct (launch_valid w ss g Hw Hg Hl) as [results [E [Len [F _]]]].
      eexists. eexists. split; [exact E|]. split; [|apply rng_drop_uniform, Hg].
      unfold coherent. cbn [ss_results ss_stats].
      destruct Hw as [Hn _]. split; [reflexivity|]. split; [lia|exact F].
    - exists ss, g. unfold launch. rewrite Hl. auto. }
  destruct L as [ss1 [g1 [E [C1 U1]]]]. rewrite E.
  destruct (limpiar w).
  - assert (Cl : exists ss2, clear ss1 = (ss2, None) /\ ss2 = empty_session).
    { unfold clear. unfold coherent in C1. destruct ss1 as [[r|] [s|]];
        cbn [ss_results ss_stats] in *; try contradiction;
        eexists; split; reflexivity. }
    destruct Cl as [ss2 [-> ->]].
    unfold launch. cbn [lanzar limpiar]. cbn.
    eexists. eexists. eexists. split; [reflexivity|]. split; [exact I|exact U1].
  - destruct (show_coherent v ss1 C1) as [pg Hpg]. rewrite Hpg.
    eexists. eexists. eexists. split; [reflexivity|]. split; assumption.
Qed.

(** X18. Over a whole session that starts with an empty session state, and
    whatever the user does with the sliders and the two buttons: no
    execution of the script fails (no KeyError, no error of the test or of
    the simulation: the test is only run on at least one flip), every
    action ends with a rendered page, and the session state stays coherent:
    'results' and 'stats' are present together and 'stats' are the
    statistics of 'results'. *)
Theorem session_never_fails (v : bool) (ws : list widgets) (g : rng) :
  Forall slider_values ws -> uniform_source g ->
  exists os ss' g',
    session v ws empty_session g = (os, ss', g') /\
    List.length os = List.length ws /\
    Forall (fun o => exists pg, o = Rendered pg) os /\
    coherent ss'.
Proof.
  intros Hws Hg.
  assert (G : forall ss, coherent ss ->
            exists os ss' g',
              session v ws ss g = (os, ss', g') /\
              List.length os = List.length ws /\
              Forall (fun o => exists pg, o = Rendered pg) os /\
              coherent ss').
  { revert g Hg. induction Hws as [|w ws Hw Hws IH]; intros g Hg ss Hss.
    - exists [], ss, g. cbn. auto.
    - cbn [session].
      destruct (interaction_coherent v w ss g Hw Hss Hg) as [pg [ss1 [g1 [E [C1 U1]]]]].
      rewrite E.
      destruct (IH g1 U1 ss1 C1) as [os [ss2 [g2 [E2 [Len [Fo C2]]]]]].
      rewrite E2. exists (Rendered pg :: os), ss2, g2.
      split; [reflexivity|]. split; [cbn; lia|]. split; [|exact C2].
      constructor; [eexists; reflexivity|exact Fo]. }
  apply G, coherent_empty.
Qed.

Lemma session_never_fails_witness :
  exists os ss' g',
    session true
      [ {| n_flips := 10; probability := 1 # 2; lanzar := true; limpiar := false |};
        {| n_flips := 10; probability := 1 # 2; lanzar := false; limpiar := true |} ]
      empty_session sample_rng = (os, ss', g') /\
    List.length os = 2%nat /\
    Forall (fun o => exists pg, o = Rendered pg) os /\
    coherent ss'.
Proof.
  apply (session_never_fails true
    [ {| n_flips := 10; probability := 1 # 2; lanzar := true; limpiar := false |};
      {| n_flips := 10; probability := 1 # 2; lanzar := false; limpiar := true |} ]
    sample_rng).
  - repeat constructor; cbn; (lia || lra).
  - exact sample_rng_uniform.
Defined.

(** X19. "Limpiar Resultados" on a coherent session state - also on the
    empty one, where nothing is deleted - leaves the session state empty,
    draws no random sample and ends on the welcome page. *)
Theorem clear_shows_welcome (v : bool) (w : widgets) (ss : session_state) (g : rng) :
  coherent ss -> lanzar w = false -> limpiar w = true ->
  interaction v w ss g = (Rendered Welcome, empty_session, g).
Proof.
  intros C Hl Hc. unfold interaction, script, launch. rewrite Hl, Hc.
  unfold coherent in C. destruct ss as [[r|] [s|]];
    cbn [ss_results ss_stats] in C; try contradiction; reflexivity.
Qed.

Lemma clear_shows_welcome_witness :
  interaction true
    {| n_flips := 10; probability := 1 # 2; lanzar := false; limpiar := true |}
    {| ss_results := Some [Cara; Cruz; Cara];
       ss_stats := Some (calculate_statistics [Cara; Cruz; Cara]) |}
    sample_rng = (Rendered Welcome, empty_session, sample_rng).
Proof.
  apply (clear_shows_welcome true
    {| n_flips := 10; probability := 1 # 2; lanzar := false; limpiar := true |}
    {| ss_results := Some [Cara; Cruz; Cara];
       ss_stats := Some (calculate_statistics [Cara; Cruz; Cara]) |}
    sample_rng); [|reflexivity|reflexivity].
  unfold coherent. cbn [ss_results ss_stats].
  split; [reflexivity|]. split; [cbn; lia|all_outcomes].
Defined.

Lemma combine_nth_error (xs : list Z) (l : list string) (i : nat) (a : Z) (x : string) :
  nth_error xs i = Some a -> nth_error l i = Some x ->
  nth_error (combine xs l) i = Some (a, x).
Proof.
  revert xs l. induction i as [|i IH]; intros [|b xs] [|y l] Ha Hx;
    try discriminate Ha; try discriminate Hx; cbn in *.
  - congruence.
  - apply IH; assumption.
Qed.

Lemma combine_range_nth (results : list string) (i : nat) (x : string) :
  nth_error results i = Some x ->
  nth_error (combine (py_range 1 (py_len results + 1)) results) i =
  Some (Z.of_nat (S i), x).
Proof.
  intros H.
  assert (Hi : (i < List.length results)%nat) by (apply nth_error_Some; congruence).
  apply combine_nth_error; [|exact H].
  apply py_range_from_1, Hi.
Qed.

(** X20. "Lanzar Moneda", from any session state: the page shows total =
    number of flips asked for, heads + tails = total, a difference
    |heads - tails| between 0 and total with the parity of total, and a
    table with one row per flip, numbered from 1 in the order of the
    flips; the earlier results are replaced. *)
Theorem launch_page (v : bool) (w : widgets) (ss : session_state) (g : rng) :
  slider_values w -> uniform_source g -> lanzar w = true -> limpiar w = false ->
  exists r results,
    interaction v w ss g =
      (Rendered (Results r),
       {| ss_results := Some results;
          ss_stats := Some (calculate_statistics results) |},
       rng_drop (Z.to_nat (n_flips w)) g) /\
    metric_total r = n_flips w /\
    (metric_caras r + metric_cruces r = n_flips w)%Z /\
    diferencia r = Z.abs (metric_caras r - metric_cruces r) /\
    (0 <= diferencia r <= n_flips w)%Z /\
    Z.even (n_flips w - diferencia r) = true /\
    List.length (df_results r) = Z.to_nat (n_flips w) /\
    forall i x, nth_error results i = Some x ->
      nth_error (df_results r) i = Some (Z.of_nat (S i), x).
Proof.
  intros Hw Hg Hl Hc.
  destruct (launch_valid w ss g Hw Hg Hl) as [results [E [Len [F _]]]].
  unfold interaction, script. rewrite E, Hc. unfold show. cbn [ss_results ss_stats].
  pose proof (coherent_stats_range results) as [Hr Hz].
  assert (Ht : total (calculate_statistics results) = py_len results) by reflexivity.
  destruct Hw as [Hn Hp].
  rewrite perform_binomial_test_valid by (lia || lra).
  eexists. exists results. split; [reflexivity|].
  cbn [metric_total metric_caras metric_cruces diferencia df_results].
  pose proof (count_pair_all results F) as Sum.
  assert (S' : (caras (calculate_statistics results) + cruces (calculate_statistics results)
                = n_flips w)%Z).
  { cbn [calculate_statistics caras cruces]. unfold py_count, py_len in *. lia. }
  split; [lia|]. split; [exact S'|]. split; [reflexivity|]. split; [lia|]. split.
  - apply Z.even_spec.
    destruct (Z.le_ge_cases (cruces (calculate_statistics results))
                (caras (calculate_statistics results))) as [L|L].
    + exists (cruces (calculate_statistics results)). lia.
    + exists (caras (calculate_statistics results)). lia.
  - split.
    + rewrite length_combine. unfold py_len in *. rewrite py_range_length. lia.
    + intros i x. apply combine_range_nth.
Qed.

Lemma launch_page_witness :
  exists r results,
    interaction true
      {| n_flips := 4; probability := 1 # 3; lanzar := true; limpiar := false |}
      empty_session sample_rng =
      (Rendered (Results r),
       {| ss_results := Some results;
          ss_stats := Some (calculate_statistics results) |},
       rng_drop (Z.to_nat 4) sample_rng) /\
    metric_total r = 4%Z /\
    (metric_caras r + metric_cruces r = 4)%Z /\
    diferencia r = Z.abs (metric_caras r - metric_cruces r) /\
    (0 <= diferencia r <= 4)%Z /\
    Z.even (4 - diferencia r) = true /\
    List.length (df_results r) = Z.to_nat 4 /\
    forall i x, nth_error results i = Some x ->
      nth_error (df_results r) i = Some (Z.of_nat (S i), x).
Proof.
  apply (launch_page true
    {| n_flips := 4; probability := 1 # 3; lanzar := true; limpiar := false |}
    empty_session sample_rng);
    [split; cbn; [lia|lra]|exact sample_rng_uniform|reflexivity|reflexivity].
Defined.

(* ------------------------------------------------------------------ *)
(** ** The fair coin on few flips *)

Lemma qpow_le_1 (x : Q) (e : nat) : 0 <= x <= 1 -> qpow x e <= 1.
Proof.
  intros Hx. induction e as [|e IH]; cbn [qpow]; [lra|].
  pose proof (qpow_nonneg x e ltac:(lra)). nra.
Qed.

Lemma qpow_half_small (n : nat) : (6 <= n)%nat -> qpow (1 # 2) n <= 1 # 64.
Proof.
  intros H. replace n with (6 + (n - 6))%nat by lia. rewrite qpow_add.
  pose proof (qpow_le_1 (1 # 2) (n - 6) ltac:(lra)) as L.
  pose proof (qpow_nonneg (1 # 2) (n - 6) ltac:(lra)) as P.
  assert (E : qpow (1 # 2) 6 == 1 # 64) by reflexivity.
  rewrite E. nra.
Qed.

(** X21. How many flips the fair-coin test needs: with at most 5 flips the
    verdict is "fair" whatever the head count; with 6 or more flips, all
    heads or all tails give the verdict "not fair". *)
Theorem fair_verdict_needs_six_flips (v : bool) (k n : Z) :
  (1 <= n <= 10000000)%Z -> (0 <= k <= n)%Z ->
  exists r,
    perform_binomial_test v k n (1 # 2) = Ok r /\
    ((n <= 5)%Z -> is_fair r = true) /\
    ((6 <= n)%Z -> k = 0%Z \/ k = n -> is_fair r = false).
Proof.
  intros Hn Hk.
  destruct (fair_test_result v k n Hn Hk) as [x [E Hx]].
  eexists. split; [exact E|]. split.
  - intros H5. apply is_fair_threshold. rewrite Hx.
    assert (Cn : (n = 1 \/ n = 2 \/ n = 3 \/ n = 4 \/ n = 5)%Z) by lia.
    assert (Ck : (k = 0 \/ k = 1 \/ k = 2 \/ k = 3 \/ k = 4 \/ k = 5)%Z) by lia.
    destruct Cn as [->|[->|[->|[->| ->]]]];
      destruct Ck as [->|[->|[->|[->|[->| ->]]]]]; try lia;
      vm_compute; reflexivity.
  - intros H6 Hends.
    destruct (is_fair (finish_test n (1 # 2) (Fin x))) eqn:B; [|reflexivity].
    apply is_fair_threshold in B. exfalso.
    assert (Hx0 : x == spec_p_value 0 n (1 # 2)).
    { destruct Hends as [->| ->]; [exact Hx|].
      rewrite Hx, (spec_p_value_fair_symmetric n n) by lia.
      replace (n - n)%Z with 0%Z by lia. reflexivity. }
    rewrite spec_p_value_fair_low in Hx0 by lia.
    change 0%Z with (Z.of_nat 0) in Hx0. rewrite cdf_of_nat in Hx0.
    cbn [cdf_upto] in Hx0.
    rewrite pmf_fair, pascal_zero in Hx0 by lia.
    pose proof (qpow_half_small (Z.to_nat n) ltac:(lia)) as S6.
    pose proof (Q.le_min_r 1 (2 * (inject_Z 1 * qpow (1 # 2) (Z.to_nat n)))) as M.
    change (inject_Z 1) with 1 in M, Hx0. lra.
Qed.

Lemma fair_verdict_needs_six_flips_witness :
  exists r,
    perform_binomial_test true 5 5 (1 # 2) = Ok r /\
    ((5 <= 5)%Z -> is_fair r = true) /\
    ((6 <= 5)%Z -> 5%Z = 0%Z \/ 5%Z = 5%Z -> is_fair r = false).
Proof.
  apply (fair_verdict_needs_six_flips true 5 5); lia.
Defined.

(* ------------------------------------------------------------------ *)
(** ** [calculate_statistics]: order and concatenation *)

(** X22. The statistics depend on the results only through the counts:
    reordering the list changes nothing, nor does it change the result of
    the test run on these statistics. *)
Theorem calculate_statistics_permutation (v : bool) (l l' : list string) :
  Permutation l l' ->
  calculate_statistics l = calculate_statistics l' /\
  perform_binomial_test v (caras (calculate_statistics l))
    (total (calculate_statistics l)) (1 # 2) =
  perform_binomial_test v (caras (calculate_statistics l'))
    (total (calculate_statistics l')) (1 # 2).
Proof.
  intros P.
  assert (E : calculate_statistics l = calculate_statistics l').
  { unfold calculate_statistics, py_count, py_len.
    rewrite (Permutation_length P).
    pose proof (proj1 (Permutation_count_occ string_dec l l') P) as C.
    rewrite !C. reflexivity. }
  rewrite E. split; reflexivity.
Qed.

Lemma calculate_statistics_permutation_witness :
  calculate_statistics [Cara; Cruz; Cruz] = calculate_statistics [Cruz; Cara; Cruz] /\
  perform_binomial_test true (caras (calculate_statistics [Cara; Cruz; Cruz]))
    (total (calculate_statistics [Cara; Cruz; Cruz])) (1 # 2) =
  perform_binomial_test true (caras (calculate_statistics [Cruz; Cara; Cruz]))
    (total (calculate_statistics [Cruz; Cara; Cruz])) (1 # 2).
Proof.
  apply (calculate_statistics_permutation true [Cara; Cruz; Cruz] [Cruz; Cara; Cruz]).
  apply perm_swap.
Defined.

(** X23. The statistics of two runs put together: totals, heads counts
    and tails counts add up. *)
Theorem calculate_statistics_app (l1 l2 : list string) :
  let s := calculate_statistics (l1 ++ l2) in
  let s1 := calculate_statistics l1 in
  let s2 := calculate_statistics l2 in
  total s = (total s1 + total s2)%Z /\
  caras s = (caras s1 + caras s2)%Z /\
  cruces s = (cruces s1 + cruces s2)%Z.
Proof.
  cbv zeta.
  cbn [calculate_statistics total caras cruces].
  unfold py_len, py_count. rewrite length_app, !count_occ_app, !Nat2Z.inj_add.
  split; [reflexivity|]. split; reflexivity.
Qed.
